(** * privacyjs: the coin record [UTXO] of [src/utxo.js]

    A shallow embedding of the class [UTXO] and of what it calls, followed by
    the properties of the coin record that the specification states.

    - [UTXO] holds the class, method by method: [constructor],
      [checkOwnership], [getHashData], [sign], [getRingCTKeys], [fromProof].
    - [JS] holds the built-ins the class uses: [parseInt], [%], [===],
      [Buffer.slice], [join].
    - [bigi] and [ecurve] hold the functions of the two packages of these
      names that the class calls, on the curve secp256k1: they are
      dependencies of the repository, transcribed from the packages.
    - The modules [./stealth], [./address] and [./common] and the ECDSA
      signer of [elliptic] are collaborators: they are parameters of the
      development, taken as total functions on their arguments; of
      [./common] only [bconcat] is written out, on the two kinds of items
      [getHashData] gives it.

    Conventions. A call completes normally or abruptly ([Completion]); a
    [Buffer] is a [list byte]; a string is a [string] of 8-bit characters; a
    [bigi] integer is a [Z]. *)

From Stdlib Require Import ZArith List String Ascii Bool Lia Znumtheory.
From Stdlib.Strings Require Import Byte.
From Stdlib Require Import DecimalString Zmod.
Import ListNotations.

Local Open Scope string_scope.
Local Open Scope list_scope.
Local Open Scope Z_scope.

(** ** Completions *)

Inductive Error : Type :=
| AssertionError (message : string)
| TypeError (message : string).

Inductive Completion (A : Type) : Type :=
| Normal (value : A)
| Throw (e : Error).
Arguments Normal {A} value.
Arguments Throw {A} e.

Definition bindC {A B : Type} (c : Completion A) (k : A -> Completion B)
  : Completion B :=
  match c with
  | Normal a => k a
  | Throw e => Throw e
  end.

(** ** JavaScript built-ins used by [utxo.js] *)

Module JS.

(** The values a call of [parseInt] can return: every one of them is an
    integer-valued double, an infinity or [NaN]. *)
Inductive number : Type :=
| NaN
| Finite (z : Z)
| Infinity (negative : bool).

(** Round a natural number to the nearest double (53 significant bits, ties
    to even); from [2^1024 - 2^970] on the result is infinite. *)
Definition toDouble (sign : bool) (m : Z) : number :=
  if m <? 2 ^ 53 then Finite (if sign then - m else m)
  else
    let k := Z.log2 m - 52 in
    let q := Z.shiftr m k in
    let r := Z.land m (Z.ones k) in
    let half := Z.shiftl 1 (k - 1) in
    let up := if half <? r then 1
              else if (r =? half) && Z.odd q then 1 else 0 in
    let v := Z.shiftl (q + up) k in
    if 2 ^ 1024 <=? v then Infinity sign
    else Finite (if sign then - v else v).

(** White space and line terminators among the code units below 256, which
    are the characters a [string] holds here: tab to carriage return, the
    space and the no-break space. *)
Definition isWhiteSpace (c : ascii) : bool :=
  let n := nat_of_ascii c in
  ((9 <=? n) && (n <=? 13))%nat || (n =? 32)%nat || (n =? 160)%nat.

Fixpoint trimStart (s : string) : string :=
  match s with
  | String c s' => if isWhiteSpace c then trimStart s' else s
  | EmptyString => s
  end.

(** Value of a digit in radix 10 or 16. *)
Definition digitValue (radix : Z) (c : ascii) : option Z :=
  let n := Z.of_nat (nat_of_ascii c) in
  let v := if (48 <=? n) && (n <=? 57) then Some (n - 48)
           else if (97 <=? n) && (n <=? 122) then Some (n - 87)
           else if (65 <=? n) && (n <=? 90) then Some (n - 55)
           else None in
  match v with
  | Some d => if d <? radix then Some d else None
  | None => None
  end.

(** The longest prefix of radix digits, as (number of digits, value). *)
Fixpoint digits (radix : Z) (s : string) (count : nat) (acc : Z) : nat * Z :=
  match s with
  | String c s' =>
      match digitValue radix c with
      | Some d => digits radix s' (S count) (radix * acc + d)
      | None => (count, acc)
      end
  | EmptyString => (count, acc)
  end.

(** [parseInt(string)] with no radix argument: leading white space, a sign,
    a prefix [0x] that selects radix 16, then the longest run of digits; the
    integer read is rounded to a double. *)
Definition parseInt (input : string) : number :=
  let S0 := trimStart input in
  let '(sign, S1) :=
    match S0 with
    | String "-" r => (true, r)
    | String "+" r => (false, r)
    | _ => (false, S0)
    end in
  let '(R, S2) :=
    match S1 with
    | String "0" (String "x" r) => (16, r)
    | String "0" (String "X" r) => (16, r)
    | _ => (10, S1)
    end in
  match digits R S2 0 0 with
  | (O, _) => NaN
  | (_, mathInt) => toDouble sign mathInt
  end.

(** The remainder operator [%], with the sign of the dividend. *)
Definition rem (a : number) (b : Z) : number :=
  match a with
  | Finite z => if b =? 0 then NaN else Finite (Z.rem z b)
  | _ => NaN
  end.

(** Strict equality [===] with a finite number. *)
Definition strictEq (a : number) (b : Z) : bool :=
  match a with
  | Finite z => z =? b
  | _ => false
  end.

(** [Number.prototype.toString] of a byte: its decimal digits. *)
Definition toString (b : byte) : string :=
  NilZero.string_of_uint (N.to_uint (Byte.to_N b)).

(** Relative indices of [slice] are counted from the end and clamped. *)
Definition relIndex (len i : Z) : nat :=
  Z.to_nat (if i <? 0 then Z.max (len + i) 0 else Z.min i len).

(** [buf.slice(start, end)]. *)
Definition slice (buf : list byte) (start : Z) (stop : option Z)
  : list byte :=
  let len := Z.of_nat (List.length buf) in
  let s := relIndex len start in
  let e := match stop with
           | Some e => relIndex len e
           | None => List.length buf
           end in
  firstn (e - s) (skipn s buf).

(** [buf.join('')]: the decimal renderings of the bytes, with nothing in
    between. *)
Fixpoint join (buf : list byte) : string :=
  match buf with
  | [] => ""
  | b :: rest => (toString b ++ join rest)%string
  end.

End JS.

(** ** [bigi]: the big integers of [./crypto] and of [ecurve] *)

Module bigi.

(** [intAt]: the table [BI_RC] gives a value to digits and to letters of
    either case, and -1 to every other character. *)
Definition intAt (c : ascii) : Z :=
  let n := Z.of_nat (nat_of_ascii c) in
  if (48 <=? n) && (n <=? 57) then n - 48
  else if (97 <=? n) && (n <=? 122) then n - 87
  else if (65 <=? n) && (n <=? 90) then n - 55
  else -1.

(** State of the loop of [fromRadix]: the integer built so far, the chunk
    being read, its number of digits, and the sign flag. *)
Record radixState : Type := mkRadix {
  self : Z;
  w : Z;
  j : nat;
  mi : bool
}.

(** Digits per chunk in radix 10 ([chunkSize(10)], with 26-bit limbs). *)
Definition cs : nat := 7.

Definition radixStep (b : Z) (st : radixState) (c : ascii) : radixState :=
  let x := intAt c in
  if x <? 0 then
    if Ascii.eqb c "-" && (self st =? 0)
    then mkRadix (self st) (w st) (j st) true
    else st
  else
    let w' := b * w st + x in
    let j' := S (j st) in
    if (cs <=? j')%nat
    then mkRadix (self st * b ^ Z.of_nat cs + w') 0 0 (mi st)
    else mkRadix (self st) w' j' (mi st).

Fixpoint radixLoop (b : Z) (s : string) (st : radixState) : radixState :=
  match s with
  | String c s' => radixLoop b s' (radixStep b st c)
  | EmptyString => st
  end.

(** [fromRadix(s, b)]. *)
Definition fromRadix (s : string) (b : Z) : Z :=
  let st := radixLoop b s (mkRadix 0 0 0 false) in
  let v := if (0 <? j st)%nat
           then self st * b ^ Z.of_nat (j st) + w st
           else self st in
  if mi st then 0 - v else v.

(** [BigInteger(a)] on a string, with no radix: [fromString(a, undefined)]
    ends in [fromRadix] with radix 10. *)
Definition BigInteger (a : string) : Z := fromRadix a 10.

(** Big-endian value of a byte array. *)
Definition bigEndian (bs : list byte) : Z :=
  fold_left (fun acc b => 256 * acc + Z.of_N (Byte.to_N b)) bs 0.

(** [new BigInteger(byteArray)]: a signed, two's-complement integer. *)
Definition fromByteArraySigned (bs : list byte) : Z :=
  match bs with
  | [] => 0
  | b0 :: _ =>
      if Z.testbit (Z.of_N (Byte.to_N b0)) 7
      then bigEndian bs - 2 ^ (8 * Z.of_nat (List.length bs))
      else bigEndian bs
  end.

(** [BigInteger.fromBuffer]: a zero byte goes in front when the sign bit of
    the first byte is set. *)
Definition fromBuffer (buffer : list byte) : Z :=
  match buffer with
  | b0 :: _ =>
      if negb (Z.land (Z.of_N (Byte.to_N b0)) 128 =? 0)
      then fromByteArraySigned (x00 :: buffer)
      else fromByteArraySigned buffer
  | [] => fromByteArraySigned buffer
  end.

Definition isEven (z : Z) : bool := Z.even z.

Definition byteOfZ (z : Z) : byte :=
  match Byte.of_N (Z.to_N z) with
  | Some b => b
  | None => x00
  end.

(** Least significant byte first, for a non-negative integer. *)
Fixpoint littleEndianBytes (fuel : nat) (z : Z) : list byte :=
  match fuel with
  | O => []
  | S fuel' =>
      if z <=? 0 then []
      else byteOfZ (z mod 256) :: littleEndianBytes fuel' (z / 256)
  end.

(** [toByteArrayUnsigned] of a non-negative integer: most significant byte
    first, no leading zero. *)
Definition toByteArrayUnsigned (z : Z) : list byte :=
  rev (littleEndianBytes (Z.to_nat (Z.log2 z) + 1) z).

(** [toBuffer(size)]: zeros in front up to [size] bytes. *)
Definition toBuffer (z : Z) (size : nat) : list byte :=
  let byteArray := toByteArrayUnsigned z in
  repeat x00 (size - List.length byteArray) ++ byteArray.

(** Square and multiply, along the binary digits of the exponent. *)
Fixpoint modPowPos (b : Z) (e : positive) (m : Z) : Z :=
  match e with
  | xH => b mod m
  | xO e' => let h := modPowPos b e' m in (h * h) mod m
  | xI e' => let h := modPowPos b e' m in (((h * h) mod m) * b) mod m
  end.

(** [modPow(e, m)]: one when the exponent has no bits. *)
Definition modPow (b e m : Z) : Z :=
  match e with
  | Zpos e' => modPowPos b e' m
  | _ => 1
  end.

End bigi.

(** Decimal numerals: strings of the digits 0 to 9, and the number they
    denote. *)
Definition isDigit (c : ascii) : bool :=
  let n := Z.of_nat (nat_of_ascii c) in (48 <=? n) && (n <=? 57).

Fixpoint isDecimal (s : string) : bool :=
  match s with
  | String c s' => isDigit c && isDecimal s'
  | EmptyString => true
  end.

Fixpoint decimalFrom (acc : Z) (s : string) : Z :=
  match s with
  | String c s' => decimalFrom (10 * acc + (Z.of_nat (nat_of_ascii c) - 48)) s'
  | EmptyString => acc
  end.

Definition decimalValue (s : string) : Z := decimalFrom 0 s.

(** Test data: the bytes written by a string of hexadecimal digits. *)
Fixpoint bytesOfHex (s : string) : list byte :=
  match s with
  | String hi (String lo rest) =>
      bigi.byteOfZ (16 * bigi.intAt hi + bigi.intAt lo) :: bytesOfHex rest
  | _ => []
  end.

(** ** [ecurve]: the curve secp256k1 and its points *)

Module ecurve.

(** [ecurve.getCurveByName('secp256k1')]. *)
Definition p : Z :=
  0xFFFFFFFFFFFFFFFFFFFFFFFFFFFFFFFFFFFFFFFFFFFFFFFFFFFFFFFEFFFFFC2F.
Definition a : Z := 0.
Definition b : Z := 7.
Definition Gx : Z :=
  0x79BE667EF9DCBBAC55A06295CE870B07029BFCDB2DCE28D959F2815B16F81798.
Definition Gy : Z :=
  0x483ADA7726A3C4655DA4FBFC0E1108A8FD17B448A68554199C47D08FFB10D4B8.

(** [pOverFour = p.add(ONE).shiftRight(2)]. *)
Definition pOverFour : Z := Z.shiftr (p + 1) 2.

(** [pLength]: the size of [p] in bytes. *)
Definition pLength : nat := 32.

(** A point made by [Point.fromAffine]: its projective [z] is one. *)
Record Point : Type := fromAffine {
  x : Z;
  y : Z
}.

(** The getters [affineX] and [affineY]: [x * zInv mod p], with [zInv] one. *)
Definition affineX (Q : Point) : Z := (x Q * 1) mod p.
Definition affineY (Q : Point) : Z := (y Q * 1) mod p.

(** [Curve.prototype.pointFromX]. *)
Definition pointFromX (isOdd : bool) (x : Z) : Completion Point :=
  let alpha := (x ^ 3 + a * x + b) mod p in
  let beta := bigi.modPow alpha pOverFour p in
  let y := if xorb (bigi.isEven beta) (negb isOdd) then p - beta else beta in
  Normal (fromAffine x y).

(** [Point.prototype.getEncoded]. *)
Definition getEncoded (Q : Point) (compressed : bool) : list byte :=
  let x := affineX Q in
  let y := affineY Q in
  if compressed
  then (if bigi.isEven y then x02 else x03) :: bigi.toBuffer x pLength
  else x04 :: bigi.toBuffer x pLength ++ bigi.toBuffer y pLength.

(** [Curve.prototype.isOnCurve], for a point with [z] one. *)
Definition isOnCurve (Q : Point) : bool :=
  let x := affineX Q in
  let y := affineY Q in
  if (x <? 0) || (p <=? x) then false
  else if (y <? 0) || (p <=? y) then false
  else (y * y) mod p =? (x ^ 3 + a * x + b) mod p.

(** [Point.prototype.equals], for points with [z] one: the cross products
    of the coordinates agree modulo [p]. *)
Definition equals (Q R : Point) : bool :=
  ((y R * 1 - y Q * 1) mod p =? 0) && ((x R * 1 - x Q * 1) mod p =? 0).

(** The X-coordinate [x] has a Y root: some [y] satisfies the equation of
the curve with it. *)
Definition hasYRoot (x : Z) : Prop :=
  exists y : Z, (y * y) mod p = (x ^ 3 + a * x + b) mod p.

(** [Point.decodeFrom], on an uncompressed encoding. *)
Definition decodeFrom (buffer : list byte) : Completion Point :=
  match buffer with
  | x04 :: _ =>
      if (List.length buffer =? 1 + pLength + pLength)%nat
      then
        let x := bigi.fromBuffer
                   (JS.slice buffer 1 (Some (1 + Z.of_nat pLength))) in
        let y := bigi.fromBuffer
                   (JS.slice buffer (1 + Z.of_nat pLength) None) in
        Normal (fromAffine x y)
      else Throw (AssertionError "Invalid sequence length")
  | _ => Throw (AssertionError "Invalid sequence tag")
  end.

End ecurve.

(** ** Certificates of primality, for the field prime of the curve *)

Module Primality.

(** Trial division by [d], [d + 1], ... *)
Fixpoint noDivisorFrom (n : Z) (fuel : nat) (d : Z) : bool :=
  match fuel with
  | O => true
  | S fuel' => if n mod d =? 0 then false else noDivisorFrom n fuel' (d + 1)
  end.

Definition smallPrime (n : Z) : bool :=
  (1 <? n) && noDivisorFrom n (Z.to_nat (n - 2)) 2.

Definition product (qs : list Z) : Z := fold_right Z.mul 1 qs.

Fixpoint decreasing (qs : list Z) : bool :=
  match qs with
  | q :: (q' :: _) as rest => (q' <? q) && decreasing rest
  | _ => true
  end.

(** One line [(q, a)] of a certificate for [N]: [q] divides [N - 1], and
    [a] has order a multiple of [q] modulo every prime factor of [N]. *)
Definition pocklingtonStep (N : Z) (qa : Z * Z) : bool :=
  let '(q, a) := qa in
  ((N - 1) mod q =? 0)
  && (bigi.modPow a (N - 1) N =? 1)
  && (Z.gcd (bigi.modPow a ((N - 1) / q) N - 1) N =? 1).

(** A certificate: lines for distinct primes whose product exceeds the
    square root of [N]. *)
Definition pocklington (N : Z) (cert : list (Z * Z)) : bool :=
  (1 <? N)
  && forallb (pocklingtonStep N) cert
  && decreasing (map fst cert)
  && (N <? (product (map fst cert) + 1) * (product (map fst cert) + 1)).

(** The primes of the chain that leads to [ecurve.p]. *)
Definition q1 : Z :=
  205115282021455665897114700593932402728804164701536103180137503955397371.
Definition q2 : Z := 255515944373312847190720520512484175977.

End Primality.

(** ** Collaborators of [utxo.js] *)

Module Stealth.

(** What [checkTransactionProof] returns for a coin of the receiver. *)
Record DecodedData (PubKey : Type) : Type := mkDecoded {
  amount : string;
  mask : string;
  privKey : string;
  pubKey : PubKey
}.
Arguments mkDecoded {PubKey}.
Arguments amount {PubKey}.
Arguments mask {PubKey}.
Arguments privKey {PubKey}.
Arguments pubKey {PubKey}.

End Stealth.

(** [./address] and [./stealth]: key derivation and the ownership engine.
    [checkTransactionProof] answers [null] ([None]) for a coin that is not the
    receiver's. *)
Class StealthEngine : Type := {
  Keys : Type;
  Receiver : Type;
  PubKey : Type;
  generateKeys : string -> Keys;
  newStealth : Keys -> Receiver;
  checkTransactionProof :
    Receiver -> list byte -> list byte -> string -> string ->
    option (Stealth.DecodedData PubKey)
}.

(** [./common]: conversions and the hash. [numberToHex] is applied to the
    two ciphertext strings of a coin record, and is taken to return for each
    of them: a ciphertext it would reject is outside this development.
    [hextobin] gives the elements of the [Uint8Array] it returns. *)
Class Common : Type := {
  numberToHex : string -> string;
  hextobin : string -> list byte;
  bintohex : list byte -> string;
  soliditySha3 : string -> string
}.

(** The values [getHashData] puts in the array it hands to [bconcat]:
    [getEncoded] returns a [Buffer], [hextobin] a [Uint8Array]. *)
Inductive Item : Type :=
| BufferItem (bytes : list byte)
| Uint8ArrayItem (elements : list byte).

(** The number a [Uint8Array] converts to when it is stored as one element
    of a byte array: its string is its elements joined by commas, which reads
    as a number for one element (that element) and for none (zero), and is
    [NaN], stored as zero, for two elements or more. *)
Definition byteOfArray (elements : list byte) : byte :=
  match elements with
  | [element] => element
  | _ => x00
  end.

(** [bconcat] of [./common] is not among the sources. It is the helper of the
    stealth library, [Buffer.concat] of the items after each item that is not
    a [Buffer] has been replaced by [new Buffer([item])], a buffer of one
    byte. *)
Definition bufferOf (item : Item) : list byte :=
  match item with
  | BufferItem bytes => bytes
  | Uint8ArrayItem elements => [byteOfArray elements]
  end.

Definition bconcat (arr : list Item) : list byte :=
  List.concat (map bufferOf arr).

(** What it is for a buffer to be the uncompressed encoding of a point: the
    byte 4, then 32 bytes whose big-endian value is the affine X-coordinate,
    then 32 bytes whose big-endian value is the affine Y-coordinate. *)
Definition uncompressedOf (Q : ecurve.Point) (buffer : list byte) : Prop :=
  exists X Y : list byte,
    buffer = x04 :: X ++ Y
    /\ List.length X = 32%nat
    /\ List.length Y = 32%nat
    /\ bigi.bigEndian X = ecurve.affineX Q
    /\ bigi.bigEndian Y = ecurve.affineY Q.

(** [elliptic]: the ECDSA signer on secp256k1. *)
Class Elliptic : Type := {
  KeyPair : Type;
  Signature : Type;
  keyFromPrivate : string -> KeyPair;
  ecSign : KeyPair -> string -> Signature
}.

(** ** The coin record *)

Module UTXO.

(** A string triple [{'0': .., '1': .., '2': ..}] and a pair. *)
Record Triple : Type := mkTriple { t0 : string; t1 : string; t2 : string }.
Record Pair : Type := mkPair { p0 : string; p1 : string }.

(** [UTXOType]: key ['0'] holds [commitmentX, pubkeyX, txPubX], key ['1']
    holds [commitmentYBit, pubkeyYBit, txPubYBit], key ['2'] holds
    [EncryptedAmount, EncryptedMask], key ['3'] is the index. *)
Record UTXOType : Type := mkUTXOType {
  k0 : Triple;
  k1 : Triple;
  k2 : Pair;
  k3 : Z
}.

(** [Proof]: the result of [stealth.genTransactionProof]. *)
Record Proof : Type := mkProof {
  onetimeAddress : list byte;
  txPublicKey : list byte;
  encryptedAmount : string;
  proofMask : string;
  commitment : list byte;
  encryptedMask : string;
  proofIndex : Z
}.

(** The fields of an instance; the last three are [undefined] ([None])
    until they are assigned. *)
Record Fields : Type := mkFields {
  commitmentX : string;
  commitmentYBit : string;
  pubkeyX : string;
  pubkeyYBit : string;
  amount : string;
  mask : string;
  txPubX : string;
  txPubYBit : string;
  index : Z;
  lfStealth : ecurve.Point;
  lfTxPublicKey : ecurve.Point;
  lfCommitment : ecurve.Point;
  decodedAmount : option string;
  decodedMask : option string;
  privKey : option string
}.

(** An instance: its fields and the history of the assignments
    [this.name = ...] made on it, the latest first. *)
Record Instance : Type := mkInstance {
  this : Fields;
  assigned : list string
}.

(** A method runs on an instance and leaves an instance. *)
Definition Method (A : Type) : Type := Instance -> Completion A * Instance.

Definition ret {A : Type} (a : A) : Method A := fun o => (Normal a, o).

Definition throw {A : Type} (e : Error) : Method A := fun o => (Throw e, o).

Definition bind {A B : Type} (m : Method A) (k : A -> Method B) : Method B :=
  fun o =>
    match m o with
    | (Normal a, o') => k a o'
    | (Throw e, o') => (Throw e, o')
    end.

Declare Scope method_scope.
Delimit Scope method_scope with method.
Notation "x <- m ;; k" := (bind m (fun x => k))
  (at level 61, m at next level, right associativity) : method_scope.
Notation "m ;; k" := (bind m (fun _ => k))
  (at level 61, right associativity) : method_scope.

Definition read {A : Type} (field : Fields -> A) : Method A :=
  fun o => (Normal (field (this o)), o).

Definition assert (value : bool) (message : string) : Method unit :=
  if value then ret tt else throw (AssertionError message).

(** [this.decodedAmount = v], [this.decodedMask = v], [this.privKey = v]. *)
Definition setDecodedAmount (v : string) : Method unit :=
  fun o =>
    let f := this o in
    (Normal tt,
     mkInstance
       (mkFields (commitmentX f) (commitmentYBit f) (pubkeyX f)
          (pubkeyYBit f) (amount f) (mask f) (txPubX f) (txPubYBit f)
          (index f) (lfStealth f) (lfTxPublicKey f) (lfCommitment f)
          (Some v) (decodedMask f) (privKey f))
       ("decodedAmount" :: assigned o)).

Definition setDecodedMask (v : string) : Method unit :=
  fun o =>
    let f := this o in
    (Normal tt,
     mkInstance
       (mkFields (commitmentX f) (commitmentYBit f) (pubkeyX f)
          (pubkeyYBit f) (amount f) (mask f) (txPubX f) (txPubYBit f)
          (index f) (lfStealth f) (lfTxPublicKey f) (lfCommitment f)
          (decodedAmount f) (Some v) (privKey f))
       ("decodedMask" :: assigned o)).

Definition setPrivKey (v : string) : Method unit :=
  fun o =>
    let f := this o in
    (Normal tt,
     mkInstance
       (mkFields (commitmentX f) (commitmentYBit f) (pubkeyX f)
          (pubkeyYBit f) (amount f) (mask f) (txPubX f) (txPubYBit f)
          (index f) (lfStealth f) (lfTxPublicKey f) (lfCommitment f)
          (decodedAmount f) (decodedMask f) (Some v))
       ("privKey" :: assigned o)).

(** The result of [getRingCTKeys]. *)
Record RingCTKeys (PubKey : Type) : Type := mkRingCTKeys {
  ringPrivKey : string;
  ringPubKey : PubKey
}.
Arguments mkRingCTKeys {PubKey}.
Arguments ringPrivKey {PubKey}.
Arguments ringPubKey {PubKey}.

(** [parseInt(yBit) % 2 === 1]. *)
Definition isOddBit (yBit : string) : bool :=
  JS.strictEq (JS.rem (JS.parseInt yBit) 2) 1.

Inductive Call : Type :=
| CheckOwnership (privateSpendKey : string)
| GetRingCTKeys (privateSpendKey : string).

(** How many times the field [name] has been assigned on the instance. *)
Definition assignments (name : string) (o : Instance) : nat :=
  List.length (filter (String.eqb name) (assigned o)).

(** The point [Q] is decoded from the coordinate string [X] and the parity
    string [yBit]: it has the X-coordinate that [BigInteger] reads, the
    parity of its Y-coordinate is the one the parity test asks for, and it
    lies on the curve exactly when the X-coordinate has a Y root. *)
Definition decodedFrom (X yBit : string) (Q : ecurve.Point) : Prop :=
  ecurve.x Q = bigi.BigInteger X
  /\ Z.odd (ecurve.y Q) = isOddBit yBit
  /\ (ecurve.isOnCurve Q = true <-> ecurve.hasYRoot (bigi.BigInteger X)).

Section Methods.

Context `{StealthEngine} `{Common} `{Elliptic}.

(** [constructor(utxo)]. *)
Definition constructor (utxo : UTXOType) : Completion Instance :=
  let commitmentX := t0 (k0 utxo) in
  let commitmentYBit := t0 (k1 utxo) in
  let pubkeyX := t1 (k0 utxo) in
  let pubkeyYBit := t1 (k1 utxo) in
  let amount := numberToHex (p0 (k2 utxo)) in
  let mask := numberToHex (p1 (k2 utxo)) in
  let txPubX := t2 (k0 utxo) in
  let txPubYBit := t2 (k1 utxo) in
  let index := k3 utxo in
  bindC (ecurve.pointFromX (isOddBit pubkeyYBit) (bigi.BigInteger pubkeyX))
    (fun lfStealth =>
  bindC (ecurve.pointFromX (isOddBit txPubYBit) (bigi.BigInteger txPubX))
    (fun lfTxPublicKey =>
  bindC (ecurve.pointFromX (isOddBit commitmentYBit)
           (bigi.BigInteger commitmentX))
    (fun lfCommitment =>
  Normal
    (mkInstance
       (mkFields commitmentX commitmentYBit pubkeyX pubkeyYBit amount mask
          txPubX txPubYBit index lfStealth lfTxPublicKey lfCommitment
          None None None)
       ["lfCommitment"; "lfTxPublicKey"; "lfStealth"; "index";
        "txPubYBit"; "txPubX"; "mask"; "amount"; "pubkeyYBit"; "pubkeyX";
        "commitmentYBit"; "commitmentX"])))).

(** [checkOwnership(privateSpendKey)]. *)
Definition checkOwnership (privateSpendKey : string)
  : Method (option (Stealth.DecodedData PubKey)) :=
  (let receiver := newStealth (generateKeys privateSpendKey) in
   txPub <- read lfTxPublicKey ;;
   stealth <- read lfStealth ;;
   amount <- read amount ;;
   mask <- read mask ;;
   let decodedData :=
     checkTransactionProof receiver
       (ecurve.getEncoded txPub false)
       (ecurve.getEncoded stealth false)
       amount mask in
   match decodedData with
   | Some d =>
       setDecodedAmount (Stealth.amount d) ;;
       setDecodedMask (Stealth.mask d) ;;
       setPrivKey (Stealth.privKey d)
   | None => ret tt
   end ;;
   ret decodedData)%method.

(** [getHashData(targetAddress)]. *)
Definition getHashData (targetAddress : string) : Method string :=
  (commitment <- read lfCommitment ;;
   stealth <- read lfStealth ;;
   ret (soliditySha3
          (bintohex
             (bconcat
                [BufferItem (ecurve.getEncoded commitment false);
                 BufferItem (ecurve.getEncoded stealth false);
                 Uint8ArrayItem (hextobin targetAddress)]))))%method.

(** [sign(privateKey, targetAddress)]. *)
Definition sign (privateKey targetAddress : string) : Method Signature :=
  (let key := keyFromPrivate privateKey in
   context <- getHashData targetAddress ;;
   let signature := ecSign key context in
   ret signature)%method.

(** [getRingCTKeys(privateSpendKey)]. The [assert] throws on [null], so the
    properties of [decodedUTXO] are read from an object. *)
Definition getRingCTKeys (privateSpendKey : string)
  : Method (RingCTKeys PubKey) :=
  (decodedUTXO <- checkOwnership privateSpendKey ;;
   assert (match decodedUTXO with Some _ => true | None => false end)
     " Can't decode utxo that not belongs" ;;
   match decodedUTXO with
   | Some d => ret (mkRingCTKeys (Stealth.privKey d) (Stealth.pubKey d))
   | None => throw (TypeError "Cannot read properties of null")
   end)%method.

(** The parity string that [fromProof] computes for a point buffer. *)
Definition yBitOf (point : list byte) : string :=
  if bigi.isEven (bigi.fromBuffer (JS.slice point (-33) None))
  then "0" else "1".

(** [UTXO.fromProof(proof)]. *)
Definition fromProof (proof : Proof) : Completion Instance :=
  constructor
    (mkUTXOType
       (mkTriple
          (JS.join (JS.slice (commitment proof) 1 (Some 33)))
          (JS.join (JS.slice (onetimeAddress proof) 1 (Some 33)))
          (JS.join (JS.slice (txPublicKey proof) 1 (Some 33))))
       (mkTriple
          (yBitOf (commitment proof))
          (yBitOf (onetimeAddress proof))
          (yBitOf (txPublicKey proof)))
       (mkPair (encryptedAmount proof) (encryptedMask proof))
       (proofIndex proof)).

(** Whether the engine accepts the key [privateSpendKey] for the coin. *)
Definition owns (o : Instance) (privateSpendKey : string) : bool :=
  match checkTransactionProof (newStealth (generateKeys privateSpendKey))
          (ecurve.getEncoded (lfTxPublicKey (this o)) false)
          (ecurve.getEncoded (lfStealth (this o)) false)
          (amount (this o)) (mask (this o)) with
  | Some _ => true
  | None => false
  end.

(** A call of one of the two operations that test ownership, and the
    instance it leaves. *)
Definition call (c : Call) (o : Instance) : Instance :=
  match c with
  | CheckOwnership k => snd (checkOwnership k o)
  | GetRingCTKeys k => snd (getRingCTKeys k o)
  end.

Definition callKey (c : Call) : string :=
  match c with
  | CheckOwnership k => k
  | GetRingCTKeys k => k
  end.

(** The calls made on an instance over its lifetime, in order. *)
Definition lifetime (calls : list Call) (o : Instance) : Instance :=
  fold_left (fun o' c => call c o') calls o.

End Methods.

End UTXO.

(** ** Sample collaborators and sample data *)

Module Sample.

(** Hexadecimal digits of a positive number, most significant first. *)
Definition hexDigit (d : Z) : ascii :=
  ascii_of_nat (Z.to_nat (if d <? 10 then 48 + d else 87 + d)).

Fixpoint hexOfPositive (fuel : nat) (z : Z) (acc : string) : string :=
  match fuel with
  | O => acc
  | S fuel' =>
      if z <=? 0 then acc
      else hexOfPositive fuel' (z / 16) (String (hexDigit (z mod 16)) acc)
  end.

(** A [numberToHex]: the hexadecimal digits of the number that a decimal
    numeral denotes. *)
Definition decimalToHex (value : string) : string :=
  let z := bigi.BigInteger value in
  if z =? 0 then "0"
  else hexOfPositive (Z.to_nat (Z.log2 z) + 1) z "".

Fixpoint bytesToHex (bin : list byte) : string :=
  match bin with
  | [] => ""
  | c :: rest =>
      let n := Z.of_N (Byte.to_N c) in
      String (hexDigit (n / 16))
        (String (hexDigit (n mod 16)) (bytesToHex rest))
  end.

(** The conversions of [./common], with the identity standing for the
    hash. *)
Definition common : Common :=
  {| numberToHex := decimalToHex;
     hextobin := bytesOfHex;
     bintohex := bytesToHex;
     soliditySha3 := fun data => data |}.

(** An engine for which exactly the key [owner] owns every coin; the
    plaintexts are the ciphertexts. *)
Definition engine (owner : string) : StealthEngine :=
  {| Keys := string;
     Receiver := string;
     PubKey := unit;
     generateKeys := fun privateSpendKey => privateSpendKey;
     newStealth := fun keys => keys;
     checkTransactionProof := fun receiver _ _ encryptedAmount encryptedMask =>
       if String.eqb receiver owner
       then Some (Stealth.mkDecoded encryptedAmount encryptedMask receiver tt)
       else None |}.

(** A signer that pairs the key with the message. *)
Definition elliptic : Elliptic :=
  {| KeyPair := string;
     Signature := string * string;
     keyFromPrivate := fun privateKey => privateKey;
     ecSign := fun key msg => (key, msg) |}.

(** The uncompressed encoding of the generator of secp256k1. *)
Definition encodedG : list byte :=
  bytesOfHex
    ("04" ++
     "79be667ef9dcbbac55a06295ce870b07029bfcdb2dce28d959f2815b16f81798" ++
     "483ada7726a3c4655da4fbfc0e1108a8fd17b448a68554199c47d08ffb10d4b8").

(** A proof whose three points are the generator. *)
Definition proofG : UTXO.Proof :=
  UTXO.mkProof encodedG encodedG "255" "1" encodedG "16" 7.

(** A coin record: the three X-coordinates are 1, which is on the curve. *)
Definition coin1 (yBit : string) : UTXO.UTXOType :=
  UTXO.mkUTXOType (UTXO.mkTriple "1" "1" "1")
    (UTXO.mkTriple yBit yBit yBit) (UTXO.mkPair "255" "16") 7.

(** A coin record whose commitment X-coordinate is 5. *)
Definition coin5 : UTXO.UTXOType :=
  UTXO.mkUTXOType (UTXO.mkTriple "5" "1" "1")
    (UTXO.mkTriple "0" "0" "0") (UTXO.mkPair "255" "16") 7.

(** The instance that the constructor builds from [coin1 "0"]. *)
Definition instance1 : UTXO.Instance :=
  let Q :=
    ecurve.fromAffine 1
      0x4218F20AE6C646B363DB68605822FB14264CA8D2587FDD6FBC750D587E76A7EE in
  UTXO.mkInstance
    (UTXO.mkFields "1" "0" "1" "0" "ff" "10" "1" "0" 7 Q Q Q None None None)
    ["lfCommitment"; "lfTxPublicKey"; "lfStealth"; "index";
     "txPubYBit"; "txPubX"; "mask"; "amount"; "pubkeyYBit"; "pubkeyX";
     "commitmentYBit"; "commitmentX"].

End Sample.

(** ** Views of a record, of an instance and of a sequence of calls *)

(** The three (X-coordinate, parity) pairs of a record, in the order
    commitment, one-time address, transaction public key. *)
Definition slots (utxo : UTXO.UTXOType) : list (string * string) :=
  [(UTXO.t0 (UTXO.k0 utxo), UTXO.t0 (UTXO.k1 utxo));
   (UTXO.t1 (UTXO.k0 utxo), UTXO.t1 (UTXO.k1 utxo));
   (UTXO.t2 (UTXO.k0 utxo), UTXO.t2 (UTXO.k1 utxo))].

(** The three points of an instance, in the same order. *)
Definition points (o : UTXO.Instance) : list ecurve.Point :=
  [UTXO.lfCommitment (UTXO.this o);
   UTXO.lfStealth (UTXO.this o);
   UTXO.lfTxPublicKey (UTXO.this o)].

(** The fields that the constructor assigns, with the decoded fields
    cleared. *)
Definition coinOf (f : UTXO.Fields) : UTXO.Fields :=
  UTXO.mkFields (UTXO.commitmentX f) (UTXO.commitmentYBit f) (UTXO.pubkeyX f)
    (UTXO.pubkeyYBit f) (UTXO.amount f) (UTXO.mask f) (UTXO.txPubX f)
    (UTXO.txPubYBit f) (UTXO.index f) (UTXO.lfStealth f)
    (UTXO.lfTxPublicKey f) (UTXO.lfCommitment f) None None None.

(** The answer of the engine for the key [privateSpendKey] on the coin of
    the instance. *)
Definition answer {E : StealthEngine} (o : UTXO.Instance)
  (privateSpendKey : string) : option (Stealth.DecodedData PubKey) :=
  checkTransactionProof (newStealth (generateKeys privateSpendKey))
    (ecurve.getEncoded (UTXO.lfTxPublicKey (UTXO.this o)) false)
    (ecurve.getEncoded (UTXO.lfStealth (UTXO.this o)) false)
    (UTXO.amount (UTXO.this o)) (UTXO.mask (UTXO.this o)).

(** The answer to the last call of a sequence whose key owns the coin. *)
Definition lastSuccess {E : StealthEngine} (o : UTXO.Instance)
  (calls : list UTXO.Call) : option (Stealth.DecodedData PubKey) :=
  fold_left
    (fun found c =>
       match answer o (UTXO.callKey c) with
       | Some d => Some d
       | None => found
       end)
    calls None.

(** The bytes that [getHashData] hands, in hexadecimal, to the hash. *)
Definition hashInput {C : Common} (o : UTXO.Instance) (targetAddress : string)
  : list byte :=
  bconcat
    [BufferItem (ecurve.getEncoded (UTXO.lfCommitment (UTXO.this o)) false);
     BufferItem (ecurve.getEncoded (UTXO.lfStealth (UTXO.this o)) false);
     Uint8ArrayItem (hextobin targetAddress)].

(** A pair (X-coordinate, parity) of a record that writes the point [P] of
    the curve: a numeral that [BigInteger] reads as its X-coordinate, a
    parity string whose test gives the parity of its Y-coordinate, which is
    reduced modulo the field prime. *)
Definition compactOf (slot : string * string) (P : ecurve.Point) : Prop :=
  bigi.BigInteger (fst slot) = ecurve.x P
  /\ UTXO.isOddBit (snd slot) = Z.odd (ecurve.y P)
  /\ 0 <= ecurve.y P < ecurve.p
  /\ (ecurve.y P * ecurve.y P) mod ecurve.p
     = (ecurve.x P ^ 3 + ecurve.a * ecurve.x P + ecurve.b) mod ecurve.p.

(** Radix 10 read leniently: a character outside digits and letters is
    skipped, a letter counts for 10 to 35. *)
Fixpoint lenientFrom (acc : Z) (s : string) : Z :=
  match s with
  | String c s' =>
      let x := bigi.intAt c in
      lenientFrom (if x <? 0 then acc else 10 * acc + x) s'
  | EmptyString => acc
  end.

Fixpoint hasMinus (s : string) : bool :=
  match s with
  | String c s' => Ascii.eqb c "-" || hasMinus s'
  | EmptyString => false
  end.

(** A coin record like [Sample.coin1 "0"], with the field prime added to each
    X-coordinate. *)
Definition coin1Shifted : UTXO.UTXOType :=
  let X :=
    ("115792089237316195423570985008687907853"
     ++ "269984665640564039457584007908834671664")%string in
  UTXO.mkUTXOType (UTXO.mkTriple X X X)
    (UTXO.mkTriple "0" "0" "0") (UTXO.mkPair "255" "16") 7.

(** A coin record whose X-coordinates are written in hexadecimal. *)
Definition coinHex : UTXO.UTXOType :=
  UTXO.mkUTXOType (UTXO.mkTriple "0xff" "0xff" "0xff")
    (UTXO.mkTriple "0" "0" "0") (UTXO.mkPair "255" "16") 7.

(** * Properties *)

(** ** Bytes and big integers *)

Lemma byte_range (c : byte) : 0 <= Z.of_N (Byte.to_N c) < 256.
Proof.
  pose proof (Byte.to_N_bounded c) as Hc.
  lia.
Qed.

Lemma fold_bigEndian_shift (bs : list byte) (acc : Z) :
  fold_left (fun v c => 256 * v + Z.of_N (Byte.to_N c)) bs acc
  = acc * 256 ^ Z.of_nat (List.length bs) + bigi.bigEndian bs.
Proof.
  unfold bigi.bigEndian.
  revert acc.
  induction bs as [|c bs IH]; intros acc.
  - simpl. lia.
  - cbn [fold_left List.length].
    rewrite IH, (IH (256 * 0 + _)).
    rewrite Nat2Z.inj_succ, Z.pow_succ_r by lia.
    ring.
Qed.

Lemma bigEndian_cons (c : byte) (bs : list byte) :
  bigi.bigEndian (c :: bs)
  = Z.of_N (Byte.to_N c) * 256 ^ Z.of_nat (List.length bs) + bigi.bigEndian bs.
Proof.
  unfold bigi.bigEndian at 1.
  cbn [fold_left].
  rewrite fold_bigEndian_shift.
  reflexivity.
Qed.

Lemma bigEndian_snoc (bs : list byte) (c : byte) :
  bigi.bigEndian (bs ++ [c]) = 256 * bigi.bigEndian bs + Z.of_N (Byte.to_N c).
Proof.
  unfold bigi.bigEndian.
  rewrite fold_left_app.
  reflexivity.
Qed.

Lemma bigEndian_range (bs : list byte) :
  0 <= bigi.bigEndian bs < 256 ^ Z.of_nat (List.length bs).
Proof.
  induction bs as [|c bs IH] using rev_ind.
  - cbn. lia.
  - rewrite bigEndian_snoc, length_app.
    cbn [List.length].
    replace (Z.of_nat (List.length bs + 1))
      with (Z.succ (Z.of_nat (List.length bs))) by lia.
    rewrite Z.pow_succ_r by lia.
    pose proof (byte_range c).
    lia.
Qed.

(** [fromBuffer] reads its argument as an unsigned big-endian integer: the
    zero byte in front undoes the sign of the two's-complement reading. *)
Lemma fromBuffer_bigEndian (buffer : list byte) :
  bigi.fromBuffer buffer = bigi.bigEndian buffer.
Proof.
  destruct buffer as [|b0 rest]; [reflexivity|].
  unfold bigi.fromBuffer.
  assert (Hbit : Z.testbit (Z.of_N (Byte.to_N b0)) 7
                 = negb (Z.land (Z.of_N (Byte.to_N b0)) 128 =? 0))
    by (destruct b0; reflexivity).
  destruct (negb (Z.land (Z.of_N (Byte.to_N b0)) 128 =? 0)) eqn:Hsign.
  - unfold bigi.fromByteArraySigned.
    change (Z.testbit (Z.of_N (Byte.to_N x00)) 7) with false.
    cbv iota.
    rewrite bigEndian_cons.
    change (Z.of_N (Byte.to_N x00)) with 0.
    lia.
  - unfold bigi.fromByteArraySigned.
    rewrite Hbit.
    reflexivity.
Qed.

Lemma bigEndian_even_last (bs : list byte) (c : byte) :
  Z.even (bigi.bigEndian (bs ++ [c])) = Z.even (Z.of_N (Byte.to_N c)).
Proof.
  rewrite bigEndian_snoc, Z.add_comm, Z.even_add_mul_even; [reflexivity|].
  exists 128. reflexivity.
Qed.

(** Square-and-multiply computes the power modulo [m]. *)
Lemma modPowPos_spec (b : Z) (e : positive) (m : Z) :
  bigi.modPowPos b e m = (b ^ Zpos e) mod m.
Proof.
  induction e as [e IH|e IH|]; cbn [bigi.modPowPos].
  - rewrite IH.
    replace (Z.pos e~1) with (Z.pos e + Z.pos e + 1) by lia.
    rewrite !Z.pow_add_r, Z.pow_1_r by lia.
    destruct (Z.eq_dec m 0) as [->|Hm].
    + rewrite !Z.mod_0_r. reflexivity.
    + rewrite <- Z.mul_mod, Z.mul_mod_idemp_l by assumption. reflexivity.
  - rewrite IH.
    replace (Z.pos e~0) with (Z.pos e + Z.pos e) by lia.
    rewrite Z.pow_add_r by lia.
    destruct (Z.eq_dec m 0) as [->|Hm].
    + rewrite !Z.mod_0_r. reflexivity.
    + rewrite <- Z.mul_mod by assumption. reflexivity.
  - rewrite Z.pow_1_r. reflexivity.
Qed.

Lemma modPow_spec (b e m : Z) :
  0 <= e -> 1 < m -> bigi.modPow b e m = (b ^ e) mod m.
Proof.
  intros He Hm.
  destruct e as [|e|e]; [|apply modPowPos_spec|lia].
  cbn [bigi.modPow]. rewrite Z.pow_0_r, Z.mod_1_l by exact Hm.
  reflexivity.
Qed.

Lemma byteOfZ_value (v : Z) :
  0 <= v < 256 -> Z.of_N (Byte.to_N (bigi.byteOfZ v)) = v.
Proof.
  intros Hv.
  unfold bigi.byteOfZ.
  destruct (Byte.of_N (Z.to_N v)) as [c|] eqn:Hc.
  - apply Byte.to_of_N in Hc. lia.
  - apply Byte.of_N_None_iff in Hc. lia.
Qed.

Lemma littleEndianBytes_length (fuel : nat) :
  forall (z : Z) (k : nat),
    z < 256 ^ Z.of_nat k ->
    (List.length (bigi.littleEndianBytes fuel z) <= k)%nat.
Proof.
  induction fuel as [|fuel IH]; intros z k Hz; cbn [bigi.littleEndianBytes].
  - cbn. lia.
  - destruct (z <=? 0) eqn:Hpos; [cbn; lia|].
    apply Z.leb_gt in Hpos.
    destruct k as [|k]; [cbn in Hz; lia|].
    cbn [List.length].
    apply le_n_S, IH.
    rewrite Nat2Z.inj_succ, Z.pow_succ_r in Hz by lia.
    apply Z.div_lt_upper_bound; lia.
Qed.

Lemma littleEndianBytes_value (fuel : nat) :
  forall z : Z,
    0 <= z < 256 ^ Z.of_nat fuel ->
    bigi.bigEndian (rev (bigi.littleEndianBytes fuel z)) = z.
Proof.
  induction fuel as [|fuel IH]; intros z Hz; cbn [bigi.littleEndianBytes].
  - cbn in *. lia.
  - destruct (z <=? 0) eqn:Hpos.
    + apply Z.leb_le in Hpos. cbn. lia.
    + apply Z.leb_gt in Hpos.
      cbn [rev].
      rewrite bigEndian_snoc, byteOfZ_value by (apply Z.mod_pos_bound; lia).
      rewrite IH.
      * pose proof (Z.div_mod z 256). lia.
      * rewrite Nat2Z.inj_succ, Z.pow_succ_r in Hz by lia.
        split; [apply Z.div_pos; lia|apply Z.div_lt_upper_bound; lia].
Qed.

Lemma bigEndian_zeros (n : nat) (bs : list byte) :
  bigi.bigEndian (repeat x00 n ++ bs) = bigi.bigEndian bs.
Proof.
  induction n as [|n IH]; [reflexivity|].
  cbn [repeat app].
  rewrite bigEndian_cons, IH.
  change (Z.of_N (Byte.to_N x00)) with 0.
  lia.
Qed.

(** [toBuffer(size)] of an integer that fits gives exactly [size] bytes, and
    these bytes read back as the integer. *)
Lemma toBuffer_spec (z : Z) (size : nat) :
  0 <= z < 256 ^ Z.of_nat size ->
  List.length (bigi.toBuffer z size) = size
  /\ bigi.bigEndian (bigi.toBuffer z size) = z.
Proof.
  intros Hz.
  unfold bigi.toBuffer, bigi.toByteArrayUnsigned.
  split.
  - rewrite length_app, repeat_length, length_rev.
    pose proof (littleEndianBytes_length (Z.to_nat (Z.log2 z) + 1) z size
                  (proj2 Hz)).
    lia.
  - rewrite bigEndian_zeros.
    apply littleEndianBytes_value.
    split; [lia|].
    destruct (Z.eq_dec z 0) as [->|Hnz].
    + apply Z.pow_pos_nonneg; lia.
    + pose proof (Z.log2_nonneg z) as Hl.
      assert (Hlt : z < 2 ^ Z.succ (Z.log2 z))
        by (apply Z.log2_spec; lia).
      replace (Z.of_nat (Z.to_nat (Z.log2 z) + 1)) with (Z.succ (Z.log2 z))
        by lia.
      apply Z.lt_le_trans with (1 := Hlt).
      apply Z.pow_le_mono_l. lia.
Qed.

(** ** Points *)

Lemma p_positive : 0 < ecurve.p.
Proof. reflexivity. Qed.

Lemma p_above_one : 1 < ecurve.p.
Proof. reflexivity. Qed.

Lemma p_fits : ecurve.p < 256 ^ Z.of_nat ecurve.pLength.
Proof. reflexivity. Qed.

Lemma p_odd : Z.odd ecurve.p = true.
Proof. reflexivity. Qed.

Lemma affine_range (Q : ecurve.Point) :
  0 <= ecurve.affineX Q < 256 ^ Z.of_nat ecurve.pLength
  /\ 0 <= ecurve.affineY Q < 256 ^ Z.of_nat ecurve.pLength.
Proof.
  unfold ecurve.affineX, ecurve.affineY.
  pose proof p_positive as Hp.
  pose proof p_fits as Hf.
  pose proof (Z.mod_pos_bound (ecurve.x Q * 1) ecurve.p Hp).
  pose proof (Z.mod_pos_bound (ecurve.y Q * 1) ecurve.p Hp).
  lia.
Qed.

(** The uncompressed encoding: the prefix 4, then 32 bytes of X, then 32
    bytes of Y, each big-endian. *)
Lemma getEncoded_uncompressed (Q : ecurve.Point) :
  exists X Y : list byte,
    ecurve.getEncoded Q false = x04 :: X ++ Y
    /\ List.length X = 32%nat /\ List.length Y = 32%nat
    /\ bigi.bigEndian X = ecurve.affineX Q
    /\ bigi.bigEndian Y = ecurve.affineY Q.
Proof.
  destruct (affine_range Q) as [Hx Hy].
  destruct (toBuffer_spec _ _ Hx) as [Hlx Hvx].
  destruct (toBuffer_spec _ _ Hy) as [Hly Hvy].
  exists (bigi.toBuffer (ecurve.affineX Q) ecurve.pLength).
  exists (bigi.toBuffer (ecurve.affineY Q) ecurve.pLength).
  repeat split; assumption.
Qed.

Lemma getEncoded_length (Q : ecurve.Point) :
  List.length (ecurve.getEncoded Q false) = 65%nat.
Proof.
  destruct (getEncoded_uncompressed Q) as (X & Y & -> & HX & HY & _).
  cbn [List.length].
  rewrite length_app.
  lia.
Qed.

(** An uncompressed encoding decodes to the integers of its two halves. *)
Lemma decodeFrom_spec (buffer : list byte) (Q : ecurve.Point) :
  ecurve.decodeFrom buffer = Normal Q ->
  List.length buffer = 65%nat
  /\ ecurve.x Q = bigi.fromBuffer (JS.slice buffer 1 (Some 33))
  /\ ecurve.y Q = bigi.fromBuffer (JS.slice buffer 33 None).
Proof.
  unfold ecurve.decodeFrom.
  destruct buffer as [|tag rest]; [discriminate|].
  destruct tag; try discriminate.
  destruct (Nat.eqb_spec (List.length (x04 :: rest))
              (1 + ecurve.pLength + ecurve.pLength)) as [Hlen|Hlen];
    [|discriminate].
  intros HQ. injection HQ as <-.
  split; [exact Hlen|].
  split; reflexivity.
Qed.

(** The point of [pointFromX] keeps the X-coordinate it is given, and the
    parity of its Y-coordinate is the one asked for. *)
Lemma pointFromX_spec (isOdd : bool) (x : Z) :
  exists Q : ecurve.Point,
    ecurve.pointFromX isOdd x = Normal Q
    /\ ecurve.x Q = x
    /\ Z.odd (ecurve.y Q) = isOdd.
Proof.
  unfold ecurve.pointFromX.
  set (beta := bigi.modPow _ _ _).
  eexists. split; [reflexivity|]. split; [reflexivity|].
  cbn [ecurve.y].
  unfold bigi.isEven.
  rewrite <- Z.negb_odd.
  destruct (Z.odd beta) eqn:Hb, isOdd; cbn [negb xorb];
    rewrite ?Z.odd_sub, ?p_odd, ?Hb; reflexivity.
Qed.

(** ** Ownership checks *)

Section Ownership.

Context `{StealthEngine}.

(** What [checkOwnership] does, by the answer of the engine. *)
Lemma checkOwnership_run (k : string) (o : UTXO.Instance) :
  match checkTransactionProof (newStealth (generateKeys k))
          (ecurve.getEncoded (UTXO.lfTxPublicKey (UTXO.this o)) false)
          (ecurve.getEncoded (UTXO.lfStealth (UTXO.this o)) false)
          (UTXO.amount (UTXO.this o)) (UTXO.mask (UTXO.this o)) with
  | Some d =>
      exists o',
        UTXO.checkOwnership k o = (Normal (Some d), o')
        /\ UTXO.decodedAmount (UTXO.this o') = Some (Stealth.amount d)
        /\ UTXO.decodedMask (UTXO.this o') = Some (Stealth.mask d)
        /\ UTXO.privKey (UTXO.this o') = Some (Stealth.privKey d)
        /\ UTXO.lfTxPublicKey (UTXO.this o') = UTXO.lfTxPublicKey (UTXO.this o)
        /\ UTXO.lfStealth (UTXO.this o') = UTXO.lfStealth (UTXO.this o)
        /\ UTXO.amount (UTXO.this o') = UTXO.amount (UTXO.this o)
        /\ UTXO.mask (UTXO.this o') = UTXO.mask (UTXO.this o)
        /\ UTXO.assigned o'
           = "privKey" :: "decodedMask" :: "decodedAmount" :: UTXO.assigned o
  | None => UTXO.checkOwnership k o = (Normal None, o)
  end.
Proof.
  unfold UTXO.checkOwnership, UTXO.bind, UTXO.read, UTXO.ret.
  cbn [fst snd].
  destruct (checkTransactionProof _ _ _ _ _) as [d|].
  - eexists. split; [reflexivity|].
    cbn. repeat split; reflexivity.
  - reflexivity.
Qed.

Lemma getRingCTKeys_run (k : string) (o : UTXO.Instance) :
  UTXO.getRingCTKeys k o
  = match UTXO.checkOwnership k o with
    | (Normal (Some d), o') =>
        (Normal (UTXO.mkRingCTKeys (Stealth.privKey d) (Stealth.pubKey d)), o')
    | (Normal None, o') =>
        (Throw (AssertionError " Can't decode utxo that not belongs"), o')
    | (Throw e, o') => (Throw e, o')
    end.
Proof.
  unfold UTXO.getRingCTKeys, UTXO.bind.
  destruct (UTXO.checkOwnership k o) as [[[d|]|e] o']; reflexivity.
Qed.

End Ownership.

Lemma instance1_constructed :
  @UTXO.constructor Sample.common (Sample.coin1 "0") = Normal Sample.instance1.
Proof. vm_compute. reflexivity. Qed.

Lemma getEncoded_uncompressedOf (Q : ecurve.Point) :
  uncompressedOf Q (ecurve.getEncoded Q false).
Proof.
  destruct (getEncoded_uncompressed Q) as (X & Y & HQ & HX & HY & HvX & HvY).
  exists X, Y. auto.
Qed.

(** C1. [checkOwnership(k)] returns exactly what the transaction-proof check
    of the stealth engine returns on the 65-byte uncompressed encodings of the
    ephemeral transaction public key and of the one-time address (the byte 4,
    the 32 big-endian bytes of X, the 32 big-endian bytes of Y), together
    with the stored amount and mask ciphertexts; when that result is a success
    value, [decodedAmount], [decodedMask] and [privKey] hold its [amount],
    [mask] and [privKey]. *)
Theorem C1_checkOwnership_delegates {E : StealthEngine}
  (o : UTXO.Instance) (k : string) :
  let txPub := ecurve.getEncoded (UTXO.lfTxPublicKey (UTXO.this o)) false in
  let stealth := ecurve.getEncoded (UTXO.lfStealth (UTXO.this o)) false in
  let result :=
    checkTransactionProof (newStealth (generateKeys k)) txPub stealth
      (UTXO.amount (UTXO.this o)) (UTXO.mask (UTXO.this o)) in
  uncompressedOf (UTXO.lfTxPublicKey (UTXO.this o)) txPub
  /\ uncompressedOf (UTXO.lfStealth (UTXO.this o)) stealth
  /\ List.length txPub = 65%nat
  /\ List.length stealth = 65%nat
  /\ fst (UTXO.checkOwnership k o) = Normal result
  /\ forall d,
       result = Some d ->
       let o' := snd (UTXO.checkOwnership k o) in
       UTXO.decodedAmount (UTXO.this o') = Some (Stealth.amount d)
       /\ UTXO.decodedMask (UTXO.this o') = Some (Stealth.mask d)
       /\ UTXO.privKey (UTXO.this o') = Some (Stealth.privKey d).
Proof.
  intros txPub stealth result.
  split; [apply getEncoded_uncompressedOf|].
  split; [apply getEncoded_uncompressedOf|].
  split; [apply getEncoded_length|].
  split; [apply getEncoded_length|].
  pose proof (checkOwnership_run k o) as Hrun.
  fold txPub stealth result in Hrun.
  destruct result as [d|] eqn:Hres.
  - destruct Hrun as (o' & Hcall & Ha & Hm & Hp & _).
    rewrite Hcall. cbn [fst snd].
    split; [reflexivity|].
    intros d' Hd'. injection Hd' as <-.
    auto.
  - rewrite Hrun. cbn [fst].
    split; [reflexivity|].
    intros d' Hd'. discriminate Hd'.
Qed.

Lemma C1_checkOwnership_witness :
  let o' := snd (@UTXO.checkOwnership (Sample.engine "alice") "alice"
                   Sample.instance1) in
  UTXO.decodedAmount (UTXO.this o') = Some "ff"
  /\ UTXO.decodedMask (UTXO.this o') = Some "10"
  /\ UTXO.privKey (UTXO.this o') = Some "alice".
Proof.
  exact (proj2 (proj2 (proj2 (proj2 (proj2
           (@C1_checkOwnership_delegates (Sample.engine "alice")
              Sample.instance1 "alice")))))
           (Stealth.mkDecoded "ff" "10" "alice" tt) eq_refl).
Defined.

(** C2, as amended. For a key that does not own the coin, [checkOwnership]
    returns the failure value [null] without throwing and leaves the instance
    as it was; [getRingCTKeys] leaves the instance as it was too, but reports
    the mismatch by throwing the error of its [assert]. *)
Theorem C2_mismatch_amended {E : StealthEngine}
  (o : UTXO.Instance) (k : string) :
  UTXO.owns o k = false ->
  UTXO.checkOwnership k o = (Normal None, o)
  /\ UTXO.getRingCTKeys k o
     = (Throw (AssertionError " Can't decode utxo that not belongs"), o).
Proof.
  intros Hown.
  pose proof (checkOwnership_run k o) as Hrun.
  unfold UTXO.owns in Hown.
  destruct (checkTransactionProof _ _ _ _ _) as [d|]; [discriminate Hown|].
  split; [exact Hrun|].
  rewrite getRingCTKeys_run, Hrun.
  reflexivity.
Qed.

Lemma C2_mismatch_witness :
  @UTXO.checkOwnership (Sample.engine "alice") "bob" Sample.instance1
  = (Normal None, Sample.instance1)
  /\ @UTXO.getRingCTKeys (Sample.engine "alice") "bob" Sample.instance1
     = (Throw (AssertionError " Can't decode utxo that not belongs"),
        Sample.instance1).
Proof.
  apply (@C2_mismatch_amended (Sample.engine "alice") Sample.instance1 "bob").
  reflexivity.
Defined.

(** C2 fails as stated: the key "bob" does not own the sample coin, and
    [getRingCTKeys] throws instead of returning a failure value. *)
Lemma C2_counterexample :
  @UTXO.owns (Sample.engine "alice") Sample.instance1 "bob" = false
  /\ fst (@UTXO.getRingCTKeys (Sample.engine "alice") "bob" Sample.instance1)
     = Throw (AssertionError " Can't decode utxo that not belongs")
  /\ forall v,
       fst (@UTXO.getRingCTKeys (Sample.engine "alice") "bob" Sample.instance1)
       <> Normal v.
Proof.
  split; [reflexivity|].
  split; [reflexivity|].
  intros v Hv. discriminate Hv.
Qed.

(** ** Assignments over the lifetime of an instance *)

Section Lifetime.

Context `{StealthEngine}.

(** A call whose key owns the coin assigns each decoded field once; a call
    whose key does not own it leaves the instance as it was. Either way the
    engine sees the same coin afterwards. *)
Lemma call_effect (c : UTXO.Call) (o : UTXO.Instance) :
  (forall k, UTXO.owns (UTXO.call c o) k = UTXO.owns o k)
  /\ UTXO.assigned (UTXO.call c o)
     = if UTXO.owns o (UTXO.callKey c)
       then "privKey" :: "decodedMask" :: "decodedAmount" :: UTXO.assigned o
       else UTXO.assigned o.
Proof.
  pose proof (checkOwnership_run (UTXO.callKey c) o) as Hrun.
  unfold UTXO.owns at 3.
  assert (Hsnd : UTXO.call c o = snd (UTXO.checkOwnership (UTXO.callKey c) o)).
  { destruct c as [k|k]; cbn [UTXO.call UTXO.callKey]; [reflexivity|].
    rewrite getRingCTKeys_run.
    destruct (UTXO.checkOwnership k o) as [[[d|]|e] o']; reflexivity. }
  rewrite Hsnd.
  destruct (checkTransactionProof _ _ _ _ _) as [d|].
  - destruct Hrun as (o' & -> & _ & _ & _ & Ht & Hs & Ha & Hm & Hlog).
    cbn [snd]. split; [|exact Hlog].
    intros k. unfold UTXO.owns. rewrite Ht, Hs, Ha, Hm. reflexivity.
  - rewrite Hrun. cbn [snd]. split; reflexivity.
Qed.

Lemma assignments_cons (name field : string) (o o' : UTXO.Instance) :
  UTXO.assigned o' = field :: UTXO.assigned o ->
  UTXO.assignments name o'
  = ((if String.eqb name field then 1 else 0) + UTXO.assignments name o)%nat.
Proof.
  unfold UTXO.assignments. intros ->.
  cbn [filter].
  destruct (String.eqb name field); reflexivity.
Qed.

Lemma lifetime_assignments (name : string) (calls : list UTXO.Call) :
  forall o : UTXO.Instance,
    UTXO.assignments name (UTXO.lifetime calls o)
    = (UTXO.assignments name o
       + (if String.eqb name "privKey" then 1 else 0)
         * List.length (filter (fun c => UTXO.owns o (UTXO.callKey c)) calls)
       + (if String.eqb name "decodedMask" then 1 else 0)
         * List.length (filter (fun c => UTXO.owns o (UTXO.callKey c)) calls)
       + (if String.eqb name "decodedAmount" then 1 else 0)
         * List.length (filter (fun c => UTXO.owns o (UTXO.callKey c)) calls)
      )%nat.
Proof.
  induction calls as [|c calls IH]; intros o.
  - cbn. lia.
  - cbn [UTXO.lifetime fold_left].
    fold (UTXO.lifetime calls (UTXO.call c o)).
    rewrite IH.
    destruct (call_effect c o) as [Hsame Hlog].
    rewrite (filter_ext _ (fun c0 => UTXO.owns o (UTXO.callKey c0)))
      by (intros c0; apply Hsame).
    cbn [filter].
    unfold UTXO.assignments at 1.
    rewrite Hlog.
    fold (UTXO.assignments name o).
    destruct (UTXO.owns o (UTXO.callKey c)).
    + cbn [filter List.length].
      fold (UTXO.assignments name o).
      destruct (String.eqb name "privKey"),
        (String.eqb name "decodedMask"),
        (String.eqb name "decodedAmount"); cbn [List.length];
        unfold UTXO.assignments; lia.
    + unfold UTXO.assignments. lia.
Qed.

End Lifetime.

(** C4, as amended. Every call of [checkOwnership] or [getRingCTKeys] whose
    key owns the coin assigns [decodedAmount], [decodedMask] and [privKey]
    once more, and a call whose key does not own it assigns none of them:
    over the lifetime of an instance each of the three fields is assigned as
    many times as there are successful checks. *)
Theorem C4_assignments_amended {E : StealthEngine} {C : Common}
  (utxo : UTXO.UTXOType) (calls : list UTXO.Call) :
  exists o : UTXO.Instance,
    UTXO.constructor utxo = Normal o
    /\ let successes :=
         List.length (filter (fun c => UTXO.owns o (UTXO.callKey c)) calls) in
       UTXO.assignments "decodedAmount" (UTXO.lifetime calls o) = successes
       /\ UTXO.assignments "decodedMask" (UTXO.lifetime calls o) = successes
       /\ UTXO.assignments "privKey" (UTXO.lifetime calls o) = successes.
Proof.
  unfold UTXO.constructor.
  destruct (pointFromX_spec (UTXO.isOddBit (UTXO.t1 (UTXO.k1 utxo)))
              (bigi.BigInteger (UTXO.t1 (UTXO.k0 utxo)))) as (Q1 & -> & _).
  destruct (pointFromX_spec (UTXO.isOddBit (UTXO.t2 (UTXO.k1 utxo)))
              (bigi.BigInteger (UTXO.t2 (UTXO.k0 utxo)))) as (Q2 & -> & _).
  destruct (pointFromX_spec (UTXO.isOddBit (UTXO.t0 (UTXO.k1 utxo)))
              (bigi.BigInteger (UTXO.t0 (UTXO.k0 utxo)))) as (Q3 & -> & _).
  cbn [bindC].
  eexists. split; [reflexivity|].
  cbv zeta.
  rewrite !lifetime_assignments.
  cbn. lia.
Qed.

(** C4 fails as stated: two successful checks with the same key assign
    [decodedAmount] twice on one instance. *)
Lemma C4_counterexample :
  @UTXO.constructor Sample.common (Sample.coin1 "0") = Normal Sample.instance1
  /\ UTXO.assignments "decodedAmount"
       (@UTXO.lifetime (Sample.engine "alice")
          [UTXO.CheckOwnership "alice"; UTXO.CheckOwnership "alice"]
          Sample.instance1)
     = 2%nat.
Proof.
  split; [exact instance1_constructed|].
  reflexivity.
Qed.

(** ** The parity bit of [fromProof] *)

Lemma slice_tail (point : list byte) (n : nat) :
  (n < List.length point)%nat ->
  JS.slice point (Z.of_nat n - Z.of_nat (List.length point)) None
  = skipn n point
  /\ JS.slice point (Z.of_nat n) None = skipn n point.
Proof.
  intros Hn.
  unfold JS.slice, JS.relIndex.
  assert (Hall : forall s, s = n ->
            firstn (List.length point - s) (skipn s point) = skipn n point).
  { intros s ->. apply firstn_all2. rewrite length_skipn. lia. }
  split; apply Hall.
  - destruct (Z.ltb_spec (Z.of_nat n - Z.of_nat (List.length point)) 0); lia.
  - destruct (Z.ltb_spec (Z.of_nat n) 0); lia.
Qed.

Lemma bigEndian_even_cons (c : byte) (bs : list byte) :
  bs <> [] ->
  Z.even (bigi.bigEndian (c :: bs)) = Z.even (bigi.bigEndian bs).
Proof.
  intros Hne.
  destruct (exists_last Hne) as (front & d & ->).
  change (c :: front ++ [d]) with ((c :: front) ++ [d]).
  rewrite !bigEndian_even_last.
  reflexivity.
Qed.

Lemma yBitOf_Y_bytes (point : list byte) :
  List.length point = 65%nat ->
  UTXO.yBitOf point
  = if Z.even (bigi.bigEndian (skipn 33 point)) then "0" else "1".
Proof.
  intros Hlen.
  unfold UTXO.yBitOf, bigi.isEven.
  rewrite fromBuffer_bigEndian.
  destruct (slice_tail point 32) as [H33 _]; [lia|].
  rewrite Hlen in H33.
  change (Z.of_nat 32 - Z.of_nat 65) with (-33) in H33.
  rewrite H33.
  assert (Hsplit : exists c, skipn 32 point = c :: skipn 33 point).
  { destruct (skipn 32 point) as [|c rest] eqn:Hs.
    - apply (f_equal (@List.length byte)) in Hs.
      rewrite length_skipn in Hs. cbn in Hs. lia.
    - exists c. f_equal.
      change 33%nat with (1 + 32)%nat.
      rewrite <- skipn_skipn, Hs. reflexivity. }
  destruct Hsplit as (c & ->).
  rewrite bigEndian_even_cons; [reflexivity|].
  intros Hnil.
  apply (f_equal (@List.length byte)) in Hnil.
  rewrite length_skipn in Hnil. cbn in Hnil. lia.
Qed.

Lemma skipn_Y_bytes (prefix : byte) (X Ybytes : list byte) :
  List.length X = 32%nat -> skipn 33 (prefix :: X ++ Ybytes) = Ybytes.
Proof.
  intros HX.
  change (skipn 33 (prefix :: X ++ Ybytes)) with (skipn 32 (X ++ Ybytes)).
  rewrite skipn_app, HX, Nat.sub_diag.
  rewrite skipn_all2 by lia.
  reflexivity.
Qed.

(** C6. For a 65-byte point buffer, a prefix byte, then the 32 bytes of X,
    then the 32 bytes of Y, the parity string that [fromProof] computes from
    the last 33 bytes is the parity of the Y-coordinate alone, the
    big-endian value of the 32 bytes of Y: it is "0" exactly when Y is even,
    and "1" otherwise, whatever the bytes of X are. *)
Theorem C6_parity_bit_of_Y (prefix : byte) (X Ybytes : list byte) :
  List.length X = 32%nat ->
  List.length Ybytes = 32%nat ->
  let point := prefix :: X ++ Ybytes in
  let Y := bigi.bigEndian Ybytes in
  UTXO.yBitOf point = (if Z.even Y then "0" else "1")
  /\ (UTXO.yBitOf point = "0" <-> Z.even Y = true)
  /\ (UTXO.yBitOf point = "1" <-> Z.odd Y = true)
  /\ forall Q : ecurve.Point,
       ecurve.decodeFrom point = Normal Q -> ecurve.y Q = Y.
Proof.
  intros HX HY point Y.
  assert (Hlen : List.length point = 65%nat).
  { unfold point. cbn [List.length]. rewrite length_app. lia. }
  pose proof (yBitOf_Y_bytes point Hlen) as Hbit.
  assert (Htail : skipn 33 point = Ybytes) by (apply skipn_Y_bytes; exact HX).
  rewrite Htail in Hbit. fold Y in Hbit.
  split; [exact Hbit|].
  split; [|split].
  - rewrite Hbit.
    destruct (Z.even Y); split; intros Heq; try reflexivity; discriminate Heq.
  - rewrite Hbit, <- Z.negb_even.
    destruct (Z.even Y); split; intros Heq; try reflexivity; discriminate Heq.
  - intros Q HQ.
    apply decodeFrom_spec in HQ as (_ & _ & Hy).
    rewrite Hy, fromBuffer_bigEndian.
    destruct (slice_tail point 33) as [_ H32]; [lia|].
    change (Z.of_nat 33) with 33 in H32.
    rewrite H32, Htail.
    reflexivity.
Qed.

Lemma C6_parity_bit_witness :
  let Y := ecurve.Gy in
  UTXO.yBitOf Sample.encodedG = (if Z.even Y then "0" else "1")
  /\ (UTXO.yBitOf Sample.encodedG = "0" <-> Z.even Y = true)
  /\ (UTXO.yBitOf Sample.encodedG = "1" <-> Z.odd Y = true)
  /\ forall Q : ecurve.Point,
       ecurve.decodeFrom Sample.encodedG = Normal Q -> ecurve.y Q = Y.
Proof.
  exact (C6_parity_bit_of_Y x04
           (firstn 32 (skipn 1 Sample.encodedG)) (skipn 33 Sample.encodedG)
           eq_refl eq_refl).
Defined.

(** ** The digest and the signature *)

Lemma getHashData_run {C : Common} (o : UTXO.Instance) (a : string) :
  exists digest : string, UTXO.getHashData a o = (Normal digest, o).
Proof.
  eexists.
  unfold UTXO.getHashData, UTXO.bind, UTXO.read, UTXO.ret.
  reflexivity.
Qed.

(** C7. [getHashData(a)] is the [soliditySha3] digest of the bytes of the
    commitment point (65-byte uncompressed encoding), then the bytes of the
    one-time address point (65-byte uncompressed encoding), then one byte for
    [a], handed to the hash in hexadecimal: [bconcat] keeps the two buffers
    and makes one byte of the array that [hextobin] returns, the zero byte
    when the address has two bytes or more. The bytes of [a] do not enter
    the digest: any two addresses of two bytes or more give the same
    digest. *)
Theorem C7_getHashData_address_byte {C : Common}
  (o : UTXO.Instance) (a : string) :
  let commitment := ecurve.getEncoded (UTXO.lfCommitment (UTXO.this o)) false in
  let stealth := ecurve.getEncoded (UTXO.lfStealth (UTXO.this o)) false in
  uncompressedOf (UTXO.lfCommitment (UTXO.this o)) commitment
  /\ uncompressedOf (UTXO.lfStealth (UTXO.this o)) stealth
  /\ UTXO.getHashData a o
     = (Normal
          (soliditySha3
             (bintohex (commitment ++ stealth ++ [byteOfArray (hextobin a)]))),
        o)
  /\ ((2 <= List.length (hextobin a))%nat ->
      byteOfArray (hextobin a) = x00
      /\ forall a' : string,
           (2 <= List.length (hextobin a'))%nat ->
           UTXO.getHashData a' o = UTXO.getHashData a o).
Proof.
  intros commitment stealth.
  assert (Hzero : forall elements : list byte,
            (2 <= List.length elements)%nat -> byteOfArray elements = x00).
  { intros [|e1 [|e2 rest]] Hlen; cbn in Hlen; try lia; reflexivity. }
  assert (Hrun : forall t : string,
            UTXO.getHashData t o
            = (Normal
                 (soliditySha3
                    (bintohex
                       (commitment ++ stealth ++ [byteOfArray (hextobin t)]))),
               o)).
  { intros t.
    unfold UTXO.getHashData, UTXO.bind, UTXO.read, UTXO.ret, bconcat.
    cbn [map bufferOf List.concat].
    rewrite app_nil_r.
    reflexivity. }
  split; [apply getEncoded_uncompressedOf|].
  split; [apply getEncoded_uncompressedOf|].
  split; [apply Hrun|].
  intros Ha.
  split; [apply Hzero; exact Ha|].
  intros a' Ha'.
  rewrite !Hrun, (Hzero _ Ha), (Hzero _ Ha').
  reflexivity.
Qed.

Lemma C7_getHashData_witness :
  @hextobin Sample.common "00aa" <> @hextobin Sample.common "00ff"
  /\ @UTXO.getHashData Sample.common "00aa" Sample.instance1
     = @UTXO.getHashData Sample.common "00ff" Sample.instance1.
Proof.
  split; [discriminate|].
  apply (proj2 (proj2 (proj2 (proj2
           (@C7_getHashData_address_byte Sample.common Sample.instance1
              "00ff")))
           (le_n 2))).
  exact (le_n 2).
Defined.

(** C8. [sign(p, a)] is the ECDSA signature, under the key made from [p], of
    the digest [getHashData(a)] of the same instance, and of nothing else. *)
Theorem C8_sign_digest {C : Common} {L : Elliptic}
  (o : UTXO.Instance) (p a : string) :
  exists digest : string,
    UTXO.getHashData a o = (Normal digest, o)
    /\ UTXO.sign p a o = (Normal (ecSign (keyFromPrivate p) digest), o).
Proof.
  destruct (getHashData_run o a) as (digest & Hd).
  exists digest.
  split; [exact Hd|].
  unfold UTXO.sign, UTXO.bind.
  rewrite Hd.
  reflexivity.
Qed.

Example sign_sample :
  fst (@UTXO.sign Sample.common Sample.elliptic "key" "00ff" Sample.instance1)
  = Normal
      ("key",
       Sample.bytesToHex
         (ecurve.getEncoded (UTXO.lfCommitment (UTXO.this Sample.instance1)) false
          ++ ecurve.getEncoded (UTXO.lfStealth (UTXO.this Sample.instance1)) false
          ++ [x00])).
Proof. vm_compute. reflexivity. Qed.

(** ** The constructor *)

(** [parseInt(yBit) % 2 === 1] holds exactly when [parseInt] gives a
    non-negative odd number. *)
Lemma isOddBit_spec (yBit : string) :
  UTXO.isOddBit yBit = true
  <-> exists z, JS.parseInt yBit = JS.Finite z /\ 0 <= z /\ Z.odd z = true.
Proof.
  unfold UTXO.isOddBit.
  destruct (JS.parseInt yBit) as [|z|neg]; cbn [JS.rem JS.strictEq].
  - split; [discriminate|]. intros (z & Hz & _). discriminate Hz.
  - change (2 =? 0) with false. cbv iota. cbn [JS.strictEq].
    rewrite Z.eqb_eq.
    split.
    + intros Hrem.
      exists z. split; [reflexivity|].
      destruct (Z.le_gt_cases 0 z) as [Hpos|Hneg].
      * split; [exact Hpos|].
        rewrite Z.rem_mod_nonneg, Zmod_odd in Hrem by lia.
        destruct (Z.odd z); [reflexivity|discriminate Hrem].
      * pose proof (Z.rem_nonpos z 2) as Hb. lia.
    + intros (z' & Hz' & Hpos & Hodd).
      injection Hz' as <-.
      rewrite Z.rem_mod_nonneg, Zmod_odd, Hodd by lia.
      reflexivity.
  - split; [discriminate|]. intros (z & Hz & _). discriminate Hz.
Qed.

(** The constructor completes normally on every record, and these are the
    fields it assigns. *)
Lemma constructor_spec {C : Common} (utxo : UTXO.UTXOType) :
  exists o : UTXO.Instance,
    UTXO.constructor utxo = Normal o
    /\ UTXO.index (UTXO.this o) = UTXO.k3 utxo
    /\ UTXO.amount (UTXO.this o) = numberToHex (UTXO.p0 (UTXO.k2 utxo))
    /\ UTXO.mask (UTXO.this o) = numberToHex (UTXO.p1 (UTXO.k2 utxo))
    /\ ecurve.pointFromX (UTXO.isOddBit (UTXO.t0 (UTXO.k1 utxo)))
         (bigi.BigInteger (UTXO.t0 (UTXO.k0 utxo)))
       = Normal (UTXO.lfCommitment (UTXO.this o))
    /\ ecurve.pointFromX (UTXO.isOddBit (UTXO.t1 (UTXO.k1 utxo)))
         (bigi.BigInteger (UTXO.t1 (UTXO.k0 utxo)))
       = Normal (UTXO.lfStealth (UTXO.this o))
    /\ ecurve.pointFromX (UTXO.isOddBit (UTXO.t2 (UTXO.k1 utxo)))
         (bigi.BigInteger (UTXO.t2 (UTXO.k0 utxo)))
       = Normal (UTXO.lfTxPublicKey (UTXO.this o)).
Proof.
  unfold UTXO.constructor.
  destruct (pointFromX_spec (UTXO.isOddBit (UTXO.t1 (UTXO.k1 utxo)))
              (bigi.BigInteger (UTXO.t1 (UTXO.k0 utxo)))) as (Q1 & -> & _).
  destruct (pointFromX_spec (UTXO.isOddBit (UTXO.t2 (UTXO.k1 utxo)))
              (bigi.BigInteger (UTXO.t2 (UTXO.k0 utxo)))) as (Q2 & -> & _).
  destruct (pointFromX_spec (UTXO.isOddBit (UTXO.t0 (UTXO.k1 utxo)))
              (bigi.BigInteger (UTXO.t0 (UTXO.k0 utxo)))) as (Q3 & -> & _).
  cbn [bindC].
  eexists. split; [reflexivity|].
  cbn. repeat split; reflexivity.
Qed.

(** C9, as amended. The instance built from a record stores the index of the
    record unchanged, and stores for each of the two ciphertexts what
    [numberToHex] makes of the string of the record. *)
Theorem C9_stored_amended {C : Common} (utxo : UTXO.UTXOType) :
  exists o : UTXO.Instance,
    UTXO.constructor utxo = Normal o
    /\ UTXO.index (UTXO.this o) = UTXO.k3 utxo
    /\ UTXO.amount (UTXO.this o) = numberToHex (UTXO.p0 (UTXO.k2 utxo))
    /\ UTXO.mask (UTXO.this o) = numberToHex (UTXO.p1 (UTXO.k2 utxo)).
Proof.
  destruct (constructor_spec utxo) as (o & Hc & Hi & Ha & Hm & _).
  exists o. auto.
Qed.

(** C9 fails as stated: with a [numberToHex] that writes a decimal numeral in
    hexadecimal, the ciphertext "255" of the record is stored as "ff". *)
Lemma C9_counterexample :
  exists o : UTXO.Instance,
    @UTXO.constructor Sample.common (Sample.coin1 "0") = Normal o
    /\ UTXO.p0 (UTXO.k2 (Sample.coin1 "0")) = "255"
    /\ UTXO.amount (UTXO.this o) = "ff"
    /\ UTXO.amount (UTXO.this o) <> UTXO.p0 (UTXO.k2 (Sample.coin1 "0")).
Proof.
  exists Sample.instance1.
  split; [exact instance1_constructed|].
  split; [reflexivity|].
  split; [reflexivity|].
  intros Heq. discriminate Heq.
Qed.

(** C10, as amended. The constructor rejects no parity string: each decoded
    point has the odd Y-root exactly when [parseInt] of its parity field is a
    non-negative odd number, and the even Y-root in every other case, be the
    parsed value even, negative or [NaN]. *)
Theorem C10_parity_amended {C : Common} (utxo : UTXO.UTXOType) :
  exists o : UTXO.Instance,
    UTXO.constructor utxo = Normal o
    /\ (Z.odd (ecurve.y (UTXO.lfCommitment (UTXO.this o))) = true
        <-> exists z, JS.parseInt (UTXO.t0 (UTXO.k1 utxo)) = JS.Finite z
                      /\ 0 <= z /\ Z.odd z = true)
    /\ (Z.odd (ecurve.y (UTXO.lfStealth (UTXO.this o))) = true
        <-> exists z, JS.parseInt (UTXO.t1 (UTXO.k1 utxo)) = JS.Finite z
                      /\ 0 <= z /\ Z.odd z = true)
    /\ (Z.odd (ecurve.y (UTXO.lfTxPublicKey (UTXO.this o))) = true
        <-> exists z, JS.parseInt (UTXO.t2 (UTXO.k1 utxo)) = JS.Finite z
                      /\ 0 <= z /\ Z.odd z = true).
Proof.
  destruct (constructor_spec utxo) as (o & Hc & _ & _ & _ & H0 & H1 & H2).
  exists o. split; [exact Hc|].
  repeat split.
  all: rewrite <- isOddBit_spec.
  all: match goal with
       | Hp : ecurve.pointFromX (UTXO.isOddBit ?s) ?x = Normal ?Q
         |- Z.odd (ecurve.y ?Q) = true -> UTXO.isOddBit ?s = true =>
           destruct (pointFromX_spec (UTXO.isOddBit s) x) as (Q' & HQ & _ & Hy);
           rewrite Hp in HQ; injection HQ as <-; rewrite Hy; auto
       | Hp : ecurve.pointFromX (UTXO.isOddBit ?s) ?x = Normal ?Q
         |- UTXO.isOddBit ?s = true -> Z.odd (ecurve.y ?Q) = true =>
           destruct (pointFromX_spec (UTXO.isOddBit s) x) as (Q' & HQ & _ & Hy);
           rewrite Hp in HQ; injection HQ as <-; rewrite Hy; auto
       end.
Qed.

(** C10 fails as stated: the parity string "-1" has the odd integer value -1,
    and the constructor gives the even Y-root for it. *)
Lemma C10_counterexample :
  exists o : UTXO.Instance,
    @UTXO.constructor Sample.common (Sample.coin1 "-1") = Normal o
    /\ JS.parseInt "-1" = JS.Finite (-1)
    /\ Z.odd (-1) = true
    /\ Z.odd (ecurve.y (UTXO.lfCommitment (UTXO.this o))) = false.
Proof.
  eexists.
  split; [vm_compute; reflexivity|].
  split; [reflexivity|].
  split; reflexivity.
Qed.

(** ** Reconstruction from a proof *)

(** The X-coordinate that [fromProof] hands to the curve is the decimal
    numeral made of the decimal renderings of the 32 bytes of X. *)
Lemma fromProof_commitment_x {C : Common} (proof : UTXO.Proof) :
  exists o : UTXO.Instance,
    UTXO.fromProof proof = Normal o
    /\ UTXO.commitmentX (UTXO.this o)
       = JS.join (JS.slice (UTXO.commitment proof) 1 (Some 33))
    /\ ecurve.x (UTXO.lfCommitment (UTXO.this o))
       = bigi.BigInteger (JS.join (JS.slice (UTXO.commitment proof) 1 (Some 33))).
Proof.
  unfold UTXO.fromProof, UTXO.constructor.
  cbn [UTXO.k0 UTXO.k1 UTXO.k2 UTXO.k3 UTXO.t0 UTXO.t1 UTXO.t2].
  unfold ecurve.pointFromX.
  cbn [bindC].
  eexists. split; [reflexivity|].
  split; reflexivity.
Qed.

(** C3, on the proof whose three points are the generator of the curve. The
    commitment buffer decodes to the generator, a point on the curve, and
    [fromProof] completes; but the X-coordinate it stores is the decimal
    numeral "1211901021...", and its commitment point is not the generator. *)
Theorem C3_fromProof_generator :
  exists (o : UTXO.Instance) (G : ecurve.Point),
    ecurve.decodeFrom (UTXO.commitment Sample.proofG) = Normal G
    /\ G = ecurve.fromAffine ecurve.Gx ecurve.Gy
    /\ ecurve.isOnCurve G = true
    /\ @UTXO.fromProof Sample.common Sample.proofG = Normal o
    /\ UTXO.commitmentX (UTXO.this o)
       = ("1211901021262492201871728516098149206135117215525221945206402178"
          ++ "9242129912224823152")%string
    /\ ecurve.x (UTXO.lfCommitment (UTXO.this o)) <> ecurve.x G
    /\ ecurve.equals (UTXO.lfCommitment (UTXO.this o)) G = false.
Proof.
  destruct (@fromProof_commitment_x Sample.common Sample.proofG)
    as (o & Ho & HX & Hx).
  exists o, (ecurve.fromAffine ecurve.Gx ecurve.Gy).
  split; [vm_compute; reflexivity|].
  split; [reflexivity|].
  split; [vm_compute; reflexivity|].
  split; [exact Ho|].
  split; [rewrite HX; vm_compute; reflexivity|].
  split.
  - rewrite Hx. vm_compute. discriminate.
  - unfold ecurve.equals.
    rewrite Hx.
    apply andb_false_intro2.
    vm_compute. reflexivity.
Qed.

(** ** Primality of the field prime *)


Lemma noDivisorFrom_sound (n : Z) (fuel : nat) :
  forall d, 0 < d -> Primality.noDivisorFrom n fuel d = true ->
    forall k, d <= k < d + Z.of_nat fuel -> ~ (k | n).
Proof.
  induction fuel as [|fuel IH]; intros d Hd Hcheck k Hk; [lia|].
  cbn [Primality.noDivisorFrom] in Hcheck.
  destruct (Z.eqb_spec (n mod d) 0) as [|Hmod]; [discriminate|].
  destruct (Z.eq_dec k d) as [->|Hne].
  - intros Hdiv. apply Hmod. apply Z.mod_divide; [lia|exact Hdiv].
  - apply (IH (d + 1)); [lia|exact Hcheck|lia].
Qed.

Lemma smallPrime_sound (n : Z) : Primality.smallPrime n = true -> prime n.
Proof.
  unfold Primality.smallPrime. intros Hc.
  apply andb_true_iff in Hc as [H1 Hnd].
  apply Z.ltb_lt in H1.
  apply prime_alt. split; [exact H1|].
  intros k Hk.
  apply (noDivisorFrom_sound n _ 2 ltac:(lia) Hnd). lia.
Qed.

Lemma prime_factor (n : Z) : 1 < n -> exists r, prime r /\ (r | n).
Proof.
  pattern n. apply (well_founded_ind (Z.lt_wf 0)). clear n.
  intros n IH Hn.
  destruct (prime_dec n) as [Hp|Hnp].
  - exists n. split; [exact Hp|apply Z.divide_refl].
  - destruct (not_prime_divide n Hn Hnp) as (d & Hd & Hdiv).
    destruct (IH d) as (r & Hr & Hrd); [lia|lia|].
    exists r. split; [exact Hr|].
    apply Z.divide_trans with d; assumption.
Qed.

Lemma composite_small_factor (N : Z) :
  1 < N -> ~ prime N -> exists r, prime r /\ (r | N) /\ r * r <= N.
Proof.
  intros HN Hnp.
  destruct (not_prime_divide N HN Hnp) as (d & Hd & [m Hm]).
  assert (Hmpos : 1 < m) by nia.
  destruct (Z.le_ge_cases d m) as [Hle|Hle].
  - destruct (prime_factor d) as (r & Hr & Hrd); [lia|].
    exists r. split; [exact Hr|]. split.
    + apply Z.divide_trans with d; [exact Hrd|]. exists m. lia.
    + pose proof (prime_ge_2 r Hr).
      assert (r <= d) by (apply Zdivide_le; [lia|lia|exact Hrd]).
      nia.
  - destruct (prime_factor m) as (r & Hr & Hrm); [lia|].
    exists r. split; [exact Hr|]. split.
    + apply Z.divide_trans with m; [exact Hrm|]. exists d. lia.
    + pose proof (prime_ge_2 r Hr).
      assert (r <= m) by (apply Zdivide_le; [lia|lia|exact Hrm]).
      nia.
Qed.

(** If two powers of [a] are 1 modulo [r], so is the power by their gcd. *)
Lemma pow_gcd_one (a r : Z) : 1 < r ->
  forall s m n, (Z.to_nat (m + n) <= s)%nat -> 0 <= m -> 0 <= n ->
    a ^ m mod r = 1 -> a ^ n mod r = 1 -> a ^ Z.gcd m n mod r = 1.
Proof.
  intros Hr.
  induction s as [|s IH]; intros m n Hs Hm Hn Ham Han.
  - assert (m = 0) by lia. assert (n = 0) by lia. subst.
    cbn. apply Z.mod_1_l. lia.
  - destruct (Z.eq_dec n 0) as [->|Hn0].
    { rewrite Z.gcd_0_r, Z.abs_eq by lia. exact Ham. }
    destruct (Z.eq_dec m 0) as [->|Hm0].
    { rewrite Z.gcd_0_l, Z.abs_eq by lia. exact Han. }
    destruct (Z.le_ge_cases n m) as [Hle|Hle].
    + (* m >= n *)
      assert (Hsub : a ^ (m - n) mod r = 1).
      { replace m with ((m - n) + n) in Ham by lia.
        rewrite Z.pow_add_r in Ham by lia.
        rewrite Z.mul_mod, Han, Z.mul_1_r, Z.mod_mod in Ham by lia.
        exact Ham. }
      rewrite Z.gcd_comm, <- Z.gcd_sub_diag_r, Z.gcd_comm.
      apply IH; try lia; assumption.
    + assert (Hsub : a ^ (n - m) mod r = 1).
      { replace n with ((n - m) + m) in Han by lia.
        rewrite Z.pow_add_r in Han by lia.
        rewrite Z.mul_mod, Ham, Z.mul_1_r, Z.mod_mod in Han by lia.
        exact Han. }
      rewrite <- Z.gcd_sub_diag_r.
      apply IH; try lia; assumption.
Qed.

Lemma pow_multiple_one (a r g t : Z) :
  1 < r -> 0 <= g -> 0 <= t -> a ^ g mod r = 1 -> a ^ (g * t) mod r = 1.
Proof.
  intros Hr Hg Ht Hag.
  rewrite Z.pow_mul_r by lia.
  rewrite <- Z.mod_pow_l, Hag, Z.pow_1_l by lia.
  apply Z.mod_1_l. lia.
Qed.

(** One step of the criterion: a prime [q] of the certificate divides
    [r - 1] for every prime divisor [r] of [N]. *)
Lemma pocklingtonStep_divides (N q a r : Z) :
  1 < N -> prime q -> Primality.pocklingtonStep N (q, a) = true ->
  prime r -> (r | N) -> (q | r - 1).
Proof.
  intros HN Hq Hstep Hr HrN.
  unfold Primality.pocklingtonStep in Hstep.
  apply andb_true_iff in Hstep as [Hstep Hgcd].
  apply andb_true_iff in Hstep as [HqN Hone].
  apply Z.eqb_eq in HqN, Hone, Hgcd.
  pose proof (prime_ge_2 q Hq) as Hq2.
  pose proof (prime_ge_2 r Hr) as Hr2.
  rewrite modPow_spec in Hone by lia.
  assert (HR : 0 <= (N - 1) / q) by (apply Z.div_pos; lia).
  rewrite modPow_spec in Hgcd by (exact HR || lia).
  assert (HNq : N - 1 = q * ((N - 1) / q)).
  { apply Z.div_exact; lia. }
  set (R := (N - 1) / q) in *.
  (* modulo r *)
  assert (Hone_r : a ^ (N - 1) mod r = 1).
  { rewrite (Zmod_div_mod r N) by (try lia; exact HrN).
    rewrite Hone. apply Z.mod_1_l. lia. }
  assert (Ha : a mod r <> 0).
  { intros Ha0.
    rewrite <- Z.mod_pow_l, Ha0, Z.pow_0_l, Z.mod_0_l in Hone_r by lia.
    discriminate Hone_r. }
  assert (Hfermat : a ^ (r - 1) mod r = 1).
  { apply Z.fermat_nz; [apply prime_alt; exact Hr|exact Ha]. }
  destruct (Zdivide_dec q (r - 1)) as [Hyes|Hno]; [exact Hyes|].
  exfalso.
  assert (Hg : a ^ Z.gcd (N - 1) (r - 1) mod r = 1).
  { apply (pow_gcd_one a r ltac:(lia) (Z.to_nat (N - 1 + (r - 1))));
      try lia; assumption. }
  set (g := Z.gcd (N - 1) (r - 1)) in *.
  assert (Hg0 : 0 <= g) by apply Z.gcd_nonneg.
  assert (HgR : (g | R)).
  { apply Gauss with q.
    - rewrite <- HNq. apply Z.gcd_divide_l.
    - apply rel_prime_div with (r - 1).
      + apply rel_prime_sym. apply prime_rel_prime; assumption.
      + apply Z.gcd_divide_r. }
  destruct HgR as [t Ht].
  assert (Ht0 : 0 <= t).
  { destruct (Z.eq_dec g 0) as [Hz|Hnz].
    - exfalso. unfold g in Hz. apply Z.gcd_eq_0_l in Hz. lia.
    - nia. }
  assert (HaR : a ^ R mod r = 1).
  { rewrite Ht, Z.mul_comm. apply pow_multiple_one; try lia; exact Hg. }
  assert (Hdiv1 : (r | a ^ R mod N - 1)).
  { apply Z.mod_divide; [lia|].
    rewrite <- Zminus_mod_idemp_l.
    rewrite <- (Zmod_div_mod r N) by (try lia; exact HrN).
    rewrite HaR. reflexivity. }
  assert (Hr1 : (r | 1)).
  { rewrite <- Hgcd. apply Z.gcd_greatest; assumption. }
  apply Z.divide_1_r_nonneg in Hr1; lia.
Qed.

Lemma decreasing_bound (qs : list Z) (q : Z) :
  Primality.decreasing (q :: qs) = true -> forall q', In q' qs -> q' < q.
Proof.
  revert q.
  induction qs as [|q1 qs IH]; intros q Hd q' Hin; [destruct Hin|].
  cbn [Primality.decreasing] in Hd.
  apply andb_true_iff in Hd as [Hlt Hd].
  apply Z.ltb_lt in Hlt.
  destruct Hin as [<-|Hin]; [exact Hlt|].
  specialize (IH q1 Hd q' Hin). lia.
Qed.

Lemma decreasing_tail (qs : list Z) (q : Z) :
  Primality.decreasing (q :: qs) = true -> Primality.decreasing qs = true.
Proof.
  destruct qs as [|q1 qs]; [reflexivity|].
  cbn [Primality.decreasing]. intros Hd.
  apply andb_true_iff in Hd as [_ Hd]. exact Hd.
Qed.

(** Distinct primes that each divide [m] divide [m] together. *)
Lemma product_divides (m : Z) (qs : list Z) :
  Primality.decreasing qs = true ->
  Forall prime qs ->
  (forall q, In q qs -> (q | m)) ->
  (Primality.product qs | m).
Proof.
  induction qs as [|q qs IH]; intros Hdec Hprime Hdiv.
  - cbn. apply Z.divide_1_l.
  - cbn [Primality.product fold_right]. fold (Primality.product qs).
    inversion Hprime as [|? ? Hq Hqs]; subst.
    assert (Hrest : (Primality.product qs | m)).
    { apply IH; [eapply decreasing_tail; eassumption|exact Hqs|].
      intros q' Hin. apply Hdiv. right. exact Hin. }
    assert (Hcop : rel_prime q (Primality.product qs)).
    { clear IH Hrest Hdiv.
      pose proof (decreasing_bound qs q Hdec) as Hlt.
      clear Hdec.
      induction qs as [|q1 qs IHq].
      - cbn. apply rel_prime_sym, rel_prime_1.
      - cbn [Primality.product fold_right]. fold (Primality.product qs).
        inversion Hqs as [|? ? Hq1 Hqs']; subst.
        apply rel_prime_mult.
        + apply prime_rel_prime; [exact Hq|].
          intros Hd. apply prime_div_prime in Hd; try assumption.
          specialize (Hlt q1 (or_introl eq_refl)). lia.
        + apply IHq; [..|exact Hqs'|].
          * constructor; assumption.
          * intros q' Hin. apply Hlt. right. exact Hin. }
    destruct Hrest as [k Hk].
    assert (Hqk : (q | k)).
    { apply Gauss with (Primality.product qs).
      - rewrite Z.mul_comm, <- Hk. apply Hdiv. left. reflexivity.
      - exact Hcop. }
    destruct Hqk as [k' ->].
    exists k'. lia.
Qed.

(** The criterion of Pocklington, for a certificate of distinct primes. *)
Theorem pocklington_sound (N : Z) (cert : list (Z * Z)) :
  Primality.pocklington N cert = true ->
  Forall prime (map fst cert) ->
  prime N.
Proof.
  unfold Primality.pocklington. intros Hc Hprimes.
  apply andb_true_iff in Hc as [Hc Hsize].
  apply andb_true_iff in Hc as [Hc Hdec].
  apply andb_true_iff in Hc as [HN Hsteps].
  apply Z.ltb_lt in HN, Hsize.
  rewrite forallb_forall in Hsteps.
  destruct (prime_dec N) as [Hp|Hnp]; [exact Hp|].
  exfalso.
  destruct (composite_small_factor N HN Hnp) as (r & Hr & HrN & Hsmall).
  pose proof (prime_ge_2 r Hr) as Hr2.
  assert (HF : (Primality.product (map fst cert) | r - 1)).
  { apply product_divides; [exact Hdec|exact Hprimes|].
    intros q Hin.
    apply in_map_iff in Hin as ([q' a] & Heq & Hin). cbn in Heq. subst q'.
    apply (pocklingtonStep_divides N q a r); try assumption.
    - rewrite Forall_forall in Hprimes. apply Hprimes.
      apply in_map_iff. exists (q, a). split; [reflexivity|exact Hin].
    - apply Hsteps. exact Hin. }
  assert (Hpos : 0 <= Primality.product (map fst cert)).
  { clear - Hprimes.
    induction (map fst cert) as [|q qs IH]; [cbn; lia|].
    inversion Hprimes as [|? ? Hq Hqs]; subst.
    cbn [Primality.product fold_right]. fold (Primality.product qs).
    pose proof (prime_ge_2 q Hq). specialize (IH Hqs). nia. }
  apply Zdivide_le in HF; [|lia|lia].
  nia.
Qed.

(** The primes of a certificate, each closed by [tac]. *)
Ltac certified_primes tac :=
  cbn [map fst]; repeat (apply Forall_cons; [tac|]); apply Forall_nil.

Ltac small_prime := apply smallPrime_sound; vm_compute; reflexivity.

Lemma prime_96557 : prime 96557.
Proof.
  apply (pocklington_sound 96557 [(239, 2); (101, 2)]);
    [vm_compute; reflexivity|].
  certified_primes small_prime.
Qed.

Lemma prime_7240687 : prime 7240687.
Proof.
  assert (H20113 : prime 20113) by small_prime.
  assert (H1206781 : prime 1206781).
  { apply (pocklington_sound 1206781 [(20113, 2)]);
      [vm_compute; reflexivity|].
    certified_primes ltac:(exact H20113). }
  apply (pocklington_sound 7240687 [(1206781, 2)]);
    [vm_compute; reflexivity|].
  certified_primes ltac:(exact H1206781).
Qed.

Lemma prime_107590001 : prime 107590001.
Proof.
  apply (pocklington_sound 107590001 [(53, 2); (29, 2); (7, 2)]);
    [vm_compute; reflexivity|].
  certified_primes small_prime.
Qed.

Lemma prime_q2 : prime Primality.q2.
Proof.
  apply (pocklington_sound Primality.q2
           [(107590001, 2); (7240687, 2); (96557, 2)]);
    [vm_compute; reflexivity|].
  certified_primes
    ltac:(first [exact prime_107590001|exact prime_7240687|exact prime_96557]).
Qed.

Lemma prime_q1 : prime Primality.q1.
Proof.
  apply (pocklington_sound Primality.q1 [(Primality.q2, 2)]);
    [vm_compute; reflexivity|].
  certified_primes ltac:(exact prime_q2).
Qed.

(** The field prime of secp256k1 is prime. *)
Theorem p_prime : prime ecurve.p.
Proof.
  apply (pocklington_sound ecurve.p [(Primality.q1, 2)]);
    [vm_compute; reflexivity|].
  certified_primes ltac:(exact prime_q1).
Qed.

(** ** Square roots modulo the field prime *)

Lemma p_quarter : ecurve.pOverFour + ecurve.pOverFour = (ecurve.p - 1) / 2 + 1.
Proof. vm_compute. reflexivity. Qed.

Lemma p_half : 2 * ((ecurve.p - 1) / 2) = ecurve.p - 1.
Proof. vm_compute. reflexivity. Qed.

Lemma p_half_nonneg : 0 <= (ecurve.p - 1) / 2.
Proof. vm_compute. discriminate. Qed.

Lemma pOverFour_nonneg : 0 <= ecurve.pOverFour.
Proof. vm_compute. discriminate. Qed.

(** For a square [alpha] modulo [p], the power [alpha ^ ((p + 1) / 4)] that
    [pointFromX] computes is a square root of it. *)
Lemma square_root_candidate (alpha y : Z) :
  (y * y) mod ecurve.p = alpha mod ecurve.p ->
  let beta := bigi.modPow (alpha mod ecurve.p) ecurve.pOverFour ecurve.p in
  (beta * beta) mod ecurve.p = alpha mod ecurve.p.
Proof.
  intros Hy beta.
  pose proof p_positive as Hp.
  pose proof p_half_nonneg as Hh.
  pose proof pOverFour_nonneg as He.
  subst beta.
  rewrite modPow_spec by (exact He || exact p_above_one).
  rewrite Z.mod_pow_l.
  rewrite <- Z.mul_mod by lia.
  rewrite <- Z.pow_add_r by exact He.
  rewrite p_quarter.
  rewrite Z.pow_add_r, Z.pow_1_r by lia.
  destruct (Z.eq_dec (y mod ecurve.p) 0) as [Hy0|Hy0].
  - assert (Ha0 : alpha mod ecurve.p = 0).
    { rewrite <- Hy, Z.mul_mod, Hy0 by lia. apply Z.mod_0_l. lia. }
    rewrite Z.mul_mod, Ha0, Z.mul_0_r by lia.
    apply Z.mod_0_l. lia.
  - assert (Hone : alpha ^ ((ecurve.p - 1) / 2) mod ecurve.p = 1).
    { rewrite <- Z.mod_pow_l, <- Hy, Z.mod_pow_l.
      replace (y * y) with (y ^ 2) by (rewrite Z.pow_2_r; reflexivity).
      rewrite <- Z.pow_mul_r by lia.
      rewrite p_half.
      apply Z.fermat_nz; [apply prime_alt; exact p_prime|exact Hy0]. }
    rewrite Z.mul_mod, Hone, Z.mul_1_l, Z.mod_mod by lia.
    reflexivity.
Qed.

Lemma curve_equation_mod (x : Z) :
  (((x * 1) mod ecurve.p) ^ 3 + ecurve.a * ((x * 1) mod ecurve.p) + ecurve.b)
    mod ecurve.p
  = (x ^ 3 + ecurve.a * x + ecurve.b) mod ecurve.p.
Proof.
  pose proof p_positive as Hp.
  unfold ecurve.a.
  rewrite Z.mul_1_r, !Z.mul_0_l, !Z.add_0_r.
  rewrite (Z.add_mod (_ ^ 3)), Z.mod_pow_l, <- Z.add_mod by lia.
  reflexivity.
Qed.

Lemma opposite_square_mod (beta : Z) :
  ((ecurve.p - beta) * (ecurve.p - beta)) mod ecurve.p
  = (beta * beta) mod ecurve.p.
Proof.
  replace ((ecurve.p - beta) * (ecurve.p - beta))
    with (beta * beta + (ecurve.p - 2 * beta) * ecurve.p) by ring.
  apply Z.mod_add.
  pose proof p_positive. lia.
Qed.

(** The point that [pointFromX] returns lies on the curve exactly when the
    X-coordinate has a Y root. *)
Lemma pointFromX_onCurve (isOdd : bool) (x : Z) (Q : ecurve.Point) :
  ecurve.pointFromX isOdd x = Normal Q ->
  (ecurve.isOnCurve Q = true <-> ecurve.hasYRoot x).
Proof.
  pose proof p_positive as Hp.
  unfold ecurve.pointFromX.
  set (alpha := (x ^ 3 + ecurve.a * x + ecurve.b) mod ecurve.p).
  set (beta := bigi.modPow alpha ecurve.pOverFour ecurve.p).
  intros HQ.
  apply (f_equal (fun c => match c with Normal q => q | Throw _ => Q end))
    in HQ.
  cbv beta iota in HQ.
  subst Q.
  unfold ecurve.isOnCurve, ecurve.affineX, ecurve.affineY.
  cbn [ecurve.x ecurve.y].
  pose proof (Z.mod_pos_bound (x * 1) ecurve.p Hp) as Hx.
  set (y := if xorb (bigi.isEven beta) (negb isOdd)
            then ecurve.p - beta else beta).
  pose proof (Z.mod_pos_bound (y * 1) ecurve.p Hp) as Hyr.
  destruct (Z.ltb_spec ((x * 1) mod ecurve.p) 0) as [|_]; [lia|].
  destruct (Z.leb_spec ecurve.p ((x * 1) mod ecurve.p)) as [|_]; [lia|].
  destruct (Z.ltb_spec ((y * 1) mod ecurve.p) 0) as [|_]; [lia|].
  destruct (Z.leb_spec ecurve.p ((y * 1) mod ecurve.p)) as [|_]; [lia|].
  cbn [orb].
  rewrite Z.eqb_eq, curve_equation_mod.
  fold alpha.
  assert (Hsq : ((y * 1) mod ecurve.p * ((y * 1) mod ecurve.p)) mod ecurve.p
                = (beta * beta) mod ecurve.p).
  { rewrite <- Z.mul_mod, !Z.mul_1_r by lia.
    subst y.
    destruct (xorb _ _); [apply opposite_square_mod|reflexivity]. }
  rewrite Hsq.
  split.
  - intros Hroot. exists beta. exact Hroot.
  - intros (y0 & Hy0).
    fold alpha in Hy0.
    assert (Hmod : alpha mod ecurve.p = alpha)
      by (unfold alpha; apply Z.mod_mod; lia).
    rewrite <- Hmod in Hy0.
    pose proof (square_root_candidate alpha y0 Hy0) as Hc.
    cbv zeta in Hc.
    rewrite Hmod in Hc.
    exact Hc.
Qed.

(** The X-coordinate 5 has no Y root on secp256k1. *)
Lemma no_root_5 : ~ ecurve.hasYRoot 5.
Proof.
  intros Hroot.
  destruct (pointFromX_spec false 5) as (Q & HQ & _).
  apply (pointFromX_onCurve false 5 Q HQ) in Hroot.
  unfold ecurve.pointFromX in HQ.
  apply (f_equal (fun c => match c with Normal q => q | Throw _ => Q end))
    in HQ.
  cbv beta iota in HQ.
  subst Q.
  revert Hroot.
  vm_compute. discriminate.
Qed.

(** ** Decoding a coin record *)

(** On a decimal numeral [fromRadix] keeps, chunk after chunk, the number
    read so far. *)
Lemma radixLoop_decimal (s : string) :
  forall st : bigi.radixState,
    isDecimal s = true ->
    bigi.mi st = false ->
    (bigi.j st < bigi.cs)%nat ->
    (bigi.j st = 0%nat -> bigi.w st = 0) ->
    let st' := bigi.radixLoop 10 s st in
    bigi.mi st' = false
    /\ (bigi.j st' < bigi.cs)%nat
    /\ (bigi.j st' = 0%nat -> bigi.w st' = 0)
    /\ bigi.self st' * 10 ^ Z.of_nat (bigi.j st') + bigi.w st'
       = decimalFrom (bigi.self st * 10 ^ Z.of_nat (bigi.j st) + bigi.w st) s.
Proof.
  induction s as [|c s IH]; intros st Hdec Hmi Hj Hw.
  - cbn. auto.
  - cbn [isDecimal] in Hdec.
    apply andb_true_iff in Hdec as [Hc Hdec].
    cbn [bigi.radixLoop decimalFrom].
    assert (Hstep :
      let st1 := bigi.radixStep 10 st c in
      bigi.mi st1 = false
      /\ (bigi.j st1 < bigi.cs)%nat
      /\ (bigi.j st1 = 0%nat -> bigi.w st1 = 0)
      /\ bigi.self st1 * 10 ^ Z.of_nat (bigi.j st1) + bigi.w st1
         = 10 * (bigi.self st * 10 ^ Z.of_nat (bigi.j st) + bigi.w st)
           + (Z.of_nat (nat_of_ascii c) - 48)).
    { unfold bigi.radixStep, bigi.intAt.
      unfold isDigit in Hc. rewrite Hc.
      apply andb_true_iff in Hc as [Hlo Hhi].
      apply Z.leb_le in Hlo, Hhi.
      destruct (Z.ltb_spec (Z.of_nat (nat_of_ascii c) - 48) 0) as [|_]; [lia|].
      unfold bigi.cs in *.
      destruct (Nat.leb_spec 7 (S (bigi.j st))) as [Hfull|Hpart];
        cbn [bigi.mi bigi.j bigi.w bigi.self].
      - assert (Hj6 : bigi.j st = 6%nat) by lia.
        rewrite Hj6.
        split; [exact Hmi|]. split; [lia|]. split; [reflexivity|].
        change (Z.of_nat 0) with 0. change (Z.of_nat 6) with 6.
        change (Z.of_nat 7) with 7.
        lia.
      - split; [exact Hmi|]. split; [lia|]. split; [lia|].
        rewrite Nat2Z.inj_succ, Z.pow_succ_r by lia.
        lia. }
    destruct Hstep as (Hmi1 & Hj1 & Hw1 & Hval).
    rewrite <- Hval.
    apply IH; assumption.
Qed.

(** [BigInteger] reads a decimal numeral as the number it denotes. *)
Lemma BigInteger_decimal (s : string) :
  isDecimal s = true -> bigi.BigInteger s = decimalValue s.
Proof.
  intros Hdec.
  unfold bigi.BigInteger, bigi.fromRadix, decimalValue.
  destruct (radixLoop_decimal s (bigi.mkRadix 0 0 0 false) Hdec)
    as (Hmi & _ & Hw & Hval); try reflexivity; [cbv; lia|].
  cbn [bigi.self bigi.w bigi.j] in Hval.
  change (0 * 10 ^ Z.of_nat 0 + 0) with 0 in Hval.
  rewrite Hmi, <- Hval.
  destruct (Nat.ltb_spec 0 (bigi.j (bigi.radixLoop 10 s (bigi.mkRadix 0 0 0 false))))
    as [Hpos|Hzero].
  - reflexivity.
  - assert (Hj0 : bigi.j (bigi.radixLoop 10 s (bigi.mkRadix 0 0 0 false)) = 0%nat)
      by lia.
    rewrite Hj0, (Hw Hj0).
    change (Z.of_nat 0) with 0.
    lia.
Qed.

Lemma decodedFrom_pointFromX (X yBit : string) (Q : ecurve.Point) :
  ecurve.pointFromX (UTXO.isOddBit yBit) (bigi.BigInteger X) = Normal Q ->
  UTXO.decodedFrom X yBit Q.
Proof.
  intros HQ.
  destruct (pointFromX_spec (UTXO.isOddBit yBit) (bigi.BigInteger X))
    as (Q' & HQ' & Hx & Hy).
  assert (HQQ : Q' = Q) by congruence.
  subst Q'.
  split; [exact Hx|].
  split; [exact Hy|].
  exact (pointFromX_onCurve _ _ _ HQ).
Qed.

(** C5, as amended. Decoding a pair of a coin record never fails, whether
    or not its X-coordinate has a Y root: each of the three calls of
    [pointFromX] completes with a point, and there is no failure for an
    invalid point. Each of these points has the X-coordinate of the record
    (for a decimal numeral, the number it denotes) and a Y-coordinate that is
    odd exactly when [parseInt] of the parity field, modulo 2, is 1; it lies
    on the curve exactly when the X-coordinate has a Y root, so for an
    X-coordinate with no Y root it is off the curve. Whenever the constructor
    completes, these are the three points of the instance. *)
Theorem C5_decode_amended {C : Common} (utxo : UTXO.UTXOType) :
  exists Qc Qs Qt : ecurve.Point,
    ecurve.pointFromX (UTXO.isOddBit (UTXO.t0 (UTXO.k1 utxo)))
      (bigi.BigInteger (UTXO.t0 (UTXO.k0 utxo))) = Normal Qc
    /\ ecurve.pointFromX (UTXO.isOddBit (UTXO.t1 (UTXO.k1 utxo)))
         (bigi.BigInteger (UTXO.t1 (UTXO.k0 utxo))) = Normal Qs
    /\ ecurve.pointFromX (UTXO.isOddBit (UTXO.t2 (UTXO.k1 utxo)))
         (bigi.BigInteger (UTXO.t2 (UTXO.k0 utxo))) = Normal Qt
    /\ UTXO.decodedFrom (UTXO.t0 (UTXO.k0 utxo)) (UTXO.t0 (UTXO.k1 utxo)) Qc
    /\ UTXO.decodedFrom (UTXO.t1 (UTXO.k0 utxo)) (UTXO.t1 (UTXO.k1 utxo)) Qs
    /\ UTXO.decodedFrom (UTXO.t2 (UTXO.k0 utxo)) (UTXO.t2 (UTXO.k1 utxo)) Qt
    /\ (isDecimal (UTXO.t0 (UTXO.k0 utxo)) = true ->
        ecurve.x Qc = decimalValue (UTXO.t0 (UTXO.k0 utxo)))
    /\ (isDecimal (UTXO.t1 (UTXO.k0 utxo)) = true ->
        ecurve.x Qs = decimalValue (UTXO.t1 (UTXO.k0 utxo)))
    /\ (isDecimal (UTXO.t2 (UTXO.k0 utxo)) = true ->
        ecurve.x Qt = decimalValue (UTXO.t2 (UTXO.k0 utxo)))
    /\ forall o : UTXO.Instance,
         UTXO.constructor utxo = Normal o ->
         UTXO.lfCommitment (UTXO.this o) = Qc
         /\ UTXO.lfStealth (UTXO.this o) = Qs
         /\ UTXO.lfTxPublicKey (UTXO.this o) = Qt.
Proof.
  destruct (constructor_spec utxo) as (o & Hc & _ & _ & _ & H0 & H1 & H2).
  exists (UTXO.lfCommitment (UTXO.this o)), (UTXO.lfStealth (UTXO.this o)),
    (UTXO.lfTxPublicKey (UTXO.this o)).
  split; [exact H0|]. split; [exact H1|]. split; [exact H2|].
  apply decodedFrom_pointFromX in H0, H1, H2.
  split; [exact H0|]. split; [exact H1|]. split; [exact H2|].
  split; [intros Hd; rewrite <- (BigInteger_decimal _ Hd); apply H0|].
  split; [intros Hd; rewrite <- (BigInteger_decimal _ Hd); apply H1|].
  split; [intros Hd; rewrite <- (BigInteger_decimal _ Hd); apply H2|].
  intros o' Ho'.
  assert (Hoo : o' = o) by congruence.
  subst o'. auto.
Qed.

Lemma C5_decode_witness :
  ecurve.x (UTXO.lfCommitment (UTXO.this Sample.instance1)) = 1
  /\ Z.odd (ecurve.y (UTXO.lfCommitment (UTXO.this Sample.instance1))) = false.
Proof.
  destruct (@C5_decode_amended Sample.common (Sample.coin1 "0"))
    as (Qc & Qs & Qt & _ & _ & _ & (_ & Hy & _) & _ & _ & Hx & _ & _ & Hpts).
  destruct (Hpts Sample.instance1 instance1_constructed) as (Hc & _).
  rewrite Hc.
  split; [exact (Hx eq_refl)|exact Hy].
Defined.

(** C5 fails as stated: the X-coordinate 5 has no Y root on the curve, and
    the constructor completes normally on a record whose commitment has that
    X-coordinate; the point it stores is off the curve. *)
Lemma C5_counterexample :
  UTXO.t0 (UTXO.k0 Sample.coin5) = "5"
  /\ ~ ecurve.hasYRoot (decimalValue "5")
  /\ exists o : UTXO.Instance,
       @UTXO.constructor Sample.common Sample.coin5 = Normal o
       /\ ecurve.x (UTXO.lfCommitment (UTXO.this o)) = 5
       /\ ecurve.isOnCurve (UTXO.lfCommitment (UTXO.this o)) = false.
Proof.
  split; [reflexivity|].
  split; [exact no_root_5|].
  destruct (@constructor_spec Sample.common Sample.coin5)
    as (o & Hc & _ & _ & _ & H0 & _).
  exists o.
  split; [exact Hc|].
  apply decodedFrom_pointFromX in H0.
  destruct H0 as (Hx & _ & Hon).
  split; [exact Hx|].
  destruct (ecurve.isOnCurve (UTXO.lfCommitment (UTXO.this o))); [|reflexivity].
  exfalso. apply no_root_5. apply Hon. reflexivity.
Qed.

(** * Further properties of the coin record *)

(** ** Further properties of the ownership checks *)

Lemma checkOwnership_answer {E : StealthEngine}
  (k : string) (o : UTXO.Instance) :
  fst (UTXO.checkOwnership k o) = Normal (answer o k)
  /\ UTXO.this (snd (UTXO.checkOwnership k o))
     = match answer o k with
       | Some d =>
           let f := UTXO.this o in
           UTXO.mkFields (UTXO.commitmentX f) (UTXO.commitmentYBit f)
             (UTXO.pubkeyX f) (UTXO.pubkeyYBit f) (UTXO.amount f)
             (UTXO.mask f) (UTXO.txPubX f) (UTXO.txPubYBit f) (UTXO.index f)
             (UTXO.lfStealth f) (UTXO.lfTxPublicKey f) (UTXO.lfCommitment f)
             (Some (Stealth.amount d)) (Some (Stealth.mask d))
             (Some (Stealth.privKey d))
       | None => UTXO.this o
       end.
Proof.
  unfold answer, UTXO.checkOwnership, UTXO.bind, UTXO.read, UTXO.ret.
  cbn [fst snd].
  destruct (checkTransactionProof _ _ _ _ _) as [d|]; split; reflexivity.
Qed.

Lemma getRingCTKeys_state {E : StealthEngine}
  (k : string) (o : UTXO.Instance) :
  snd (UTXO.getRingCTKeys k o) = snd (UTXO.checkOwnership k o).
Proof.
  rewrite getRingCTKeys_run.
  destruct (UTXO.checkOwnership k o) as [[[d|]|e] o']; reflexivity.
Qed.

Lemma call_state {E : StealthEngine}
  (c : UTXO.Call) (o : UTXO.Instance) :
  UTXO.call c o = snd (UTXO.checkOwnership (UTXO.callKey c) o).
Proof.
  destruct c as [k|k]; cbn [UTXO.call UTXO.callKey]; [reflexivity|].
  apply getRingCTKeys_state.
Qed.

Lemma coinOf_checkOwnership {E : StealthEngine}
  (k : string) (o : UTXO.Instance) :
  coinOf (UTXO.this (snd (UTXO.checkOwnership k o))) = coinOf (UTXO.this o).
Proof.
  destruct (checkOwnership_answer k o) as [_ ->].
  destruct (answer o k); reflexivity.
Qed.

Lemma answer_coinOf {E : StealthEngine}
  (o o' : UTXO.Instance) (k : string) :
  coinOf (UTXO.this o') = coinOf (UTXO.this o) -> answer o' k = answer o k.
Proof.
  intros Hc.
  unfold answer.
  assert (Ht : UTXO.lfTxPublicKey (UTXO.this o')
               = UTXO.lfTxPublicKey (UTXO.this o))
    by exact (f_equal UTXO.lfTxPublicKey Hc).
  assert (Hs : UTXO.lfStealth (UTXO.this o') = UTXO.lfStealth (UTXO.this o))
    by exact (f_equal UTXO.lfStealth Hc).
  assert (Ha : UTXO.amount (UTXO.this o') = UTXO.amount (UTXO.this o))
    by exact (f_equal UTXO.amount Hc).
  assert (Hm : UTXO.mask (UTXO.this o') = UTXO.mask (UTXO.this o))
    by exact (f_equal UTXO.mask Hc).
  rewrite Ht, Hs, Ha, Hm.
  reflexivity.
Qed.

Lemma coinOf_lifetime {E : StealthEngine}
  (calls : list UTXO.Call) :
  forall o : UTXO.Instance,
    coinOf (UTXO.this (UTXO.lifetime calls o)) = coinOf (UTXO.this o).
Proof.
  induction calls as [|c calls IH]; intros o; [reflexivity|].
  cbn [UTXO.lifetime fold_left].
  fold (UTXO.lifetime calls (UTXO.call c o)).
  rewrite IH, call_state.
  apply coinOf_checkOwnership.
Qed.

(** X1. When the key owns the coin, [getRingCTKeys] returns the [privKey]
    and [pubKey] of the answer of the engine, and leaves the instance that
    [checkOwnership] leaves: the decoded fields are set, and [privKey] is the
    one returned. *)
Theorem getRingCTKeys_success {E : StealthEngine}
  (o : UTXO.Instance) (k : string)
  (d : Stealth.DecodedData PubKey) :
  answer o k = Some d ->
  exists o' : UTXO.Instance,
    UTXO.getRingCTKeys k o
    = (Normal (UTXO.mkRingCTKeys (Stealth.privKey d) (Stealth.pubKey d)), o')
    /\ UTXO.checkOwnership k o = (Normal (Some d), o')
    /\ UTXO.privKey (UTXO.this o') = Some (Stealth.privKey d).
Proof.
  intros Hans.
  destruct (checkOwnership_answer k o) as [Hres Hfields].
  rewrite Hans in Hres, Hfields.
  rewrite getRingCTKeys_run.
  destruct (UTXO.checkOwnership k o) as [r o'] eqn:Hrun.
  cbn [fst snd] in *.
  subst r.
  exists o'.
  split; [reflexivity|]. split; [reflexivity|].
  rewrite Hfields. reflexivity.
Qed.

(** X2. A second [checkOwnership] with the same key returns what the first
    returned and changes no field of the instance. *)
Theorem checkOwnership_idempotent {E : StealthEngine}
  (o : UTXO.Instance) (k : string) :
  let o1 := snd (UTXO.checkOwnership k o) in
  fst (UTXO.checkOwnership k o1) = fst (UTXO.checkOwnership k o)
  /\ UTXO.this (snd (UTXO.checkOwnership k o1)) = UTXO.this o1.
Proof.
  intros o1.
  assert (Hsame : answer o1 k = answer o k)
    by (apply answer_coinOf, coinOf_checkOwnership).
  destruct (checkOwnership_answer k o1) as [Hres1 Hf1].
  destruct (checkOwnership_answer k o) as [Hres Hf].
  fold o1 in Hf.
  rewrite Hres1, Hres, Hsame.
  split; [reflexivity|].
  rewrite Hf1, Hsame, Hf.
  destruct (answer o k); reflexivity.
Qed.

(** X3. What [checkOwnership] and [getRingCTKeys] return for a key does not
    depend on the checks made before on the instance, with whatever keys and
    outcomes. *)
Theorem checkOwnership_any_order {E : StealthEngine}
  (calls : list UTXO.Call)
  (o : UTXO.Instance) (k : string) :
  fst (UTXO.checkOwnership k (UTXO.lifetime calls o))
  = fst (UTXO.checkOwnership k o)
  /\ fst (UTXO.getRingCTKeys k (UTXO.lifetime calls o))
     = fst (UTXO.getRingCTKeys k o).
Proof.
  assert (Hsame : answer (UTXO.lifetime calls o) k = answer o k)
    by (apply answer_coinOf, coinOf_lifetime).
  destruct (checkOwnership_answer k (UTXO.lifetime calls o)) as [Hres1 _].
  destruct (checkOwnership_answer k o) as [Hres _].
  split; [rewrite Hres1, Hres, Hsame; reflexivity|].
  rewrite !getRingCTKeys_run.
  destruct (UTXO.checkOwnership k (UTXO.lifetime calls o)) as [r1 o1].
  destruct (UTXO.checkOwnership k o) as [r0 o0].
  cbn [fst] in Hres1, Hres.
  subst r1 r0. rewrite Hsame.
  destruct (answer o k); reflexivity.
Qed.

Lemma lifetime_snoc {E : StealthEngine}
  (calls : list UTXO.Call) (c : UTXO.Call)
  (o : UTXO.Instance) :
  UTXO.lifetime (calls ++ [c]) o = UTXO.call c (UTXO.lifetime calls o).
Proof.
  unfold UTXO.lifetime. rewrite fold_left_app. reflexivity.
Qed.

(** X5. After any sequence of ownership checks the decoded fields hold the
    answer to the last check that succeeded; a failed check after it clears
    nothing, and with no success the fields are as they were. *)
Theorem decoded_fields_last_success {E : StealthEngine}
  (calls : list UTXO.Call)
  (o : UTXO.Instance) :
  let f := UTXO.this (UTXO.lifetime calls o) in
  match lastSuccess o calls with
  | Some d =>
      UTXO.decodedAmount f = Some (Stealth.amount d)
      /\ UTXO.decodedMask f = Some (Stealth.mask d)
      /\ UTXO.privKey f = Some (Stealth.privKey d)
  | None =>
      UTXO.decodedAmount f = UTXO.decodedAmount (UTXO.this o)
      /\ UTXO.decodedMask f = UTXO.decodedMask (UTXO.this o)
      /\ UTXO.privKey f = UTXO.privKey (UTXO.this o)
  end.
Proof.
  induction calls as [|c calls IH] using rev_ind.
  - cbn. auto.
  - rewrite lifetime_snoc, call_state.
    unfold lastSuccess. rewrite fold_left_app. cbn [fold_left].
    fold (lastSuccess o calls).
    destruct (checkOwnership_answer (UTXO.callKey c) (UTXO.lifetime calls o))
      as [_ Hf].
    rewrite (answer_coinOf o _ _ (coinOf_lifetime calls o)) in Hf.
    cbv zeta. rewrite Hf.
    destruct (answer o (UTXO.callKey c)) as [d|].
    + cbn. auto.
    + exact IH.
Qed.


(** ** Further properties of the digest *)

Lemma getHashData_hashInput {C : Common} (o : UTXO.Instance) (a : string) :
  UTXO.getHashData a o = (Normal (soliditySha3 (bintohex (hashInput o a))), o).
Proof. reflexivity. Qed.

(** X4. Ownership checks never touch the fields that the constructor
    assigned: after any sequence of them the digest [getHashData] and the
    signature [sign] are what they were before. *)
Theorem digest_survives_checks {E : StealthEngine} {C : Common} {L : Elliptic}
  (calls : list UTXO.Call) (o : UTXO.Instance) (p a : string) :
  coinOf (UTXO.this (UTXO.lifetime calls o)) = coinOf (UTXO.this o)
  /\ fst (UTXO.getHashData a (UTXO.lifetime calls o))
     = fst (UTXO.getHashData a o)
  /\ fst (UTXO.sign p a (UTXO.lifetime calls o)) = fst (UTXO.sign p a o).
Proof.
  pose proof (coinOf_lifetime calls o) as Hc.
  assert (Hin : hashInput (UTXO.lifetime calls o) a = hashInput o a).
  { unfold hashInput.
    assert (H1 : UTXO.lfCommitment (UTXO.this (UTXO.lifetime calls o))
                 = UTXO.lfCommitment (UTXO.this o))
      by exact (f_equal UTXO.lfCommitment Hc).
    assert (H2 : UTXO.lfStealth (UTXO.this (UTXO.lifetime calls o))
                 = UTXO.lfStealth (UTXO.this o))
      by exact (f_equal UTXO.lfStealth Hc).
    rewrite H1, H2.
    reflexivity. }
  split; [exact Hc|].
  assert (Hd : fst (UTXO.getHashData a (UTXO.lifetime calls o))
               = fst (UTXO.getHashData a o)).
  { rewrite !getHashData_hashInput. cbn [fst]. rewrite Hin. reflexivity. }
  split; [exact Hd|].
  unfold UTXO.sign, UTXO.bind.
  rewrite !getHashData_hashInput in *.
  cbn [fst] in *.
  rewrite Hin. reflexivity.
Qed.

Lemma app_same_length {A : Type} (X X' Y Y' : list A) :
  List.length X = List.length X' ->
  X ++ Y = X' ++ Y' -> X = X' /\ Y = Y'.
Proof.
  revert X'.
  induction X as [|x X IH]; intros [|x' X'] Hlen Heq;
    try discriminate Hlen.
  - auto.
  - cbn in Hlen, Heq.
    injection Heq as -> Heq.
    injection Hlen as Hlen.
    destruct (IH X' Hlen Heq) as [-> ->].
    auto.
Qed.

Lemma getEncoded_inj (Q R : ecurve.Point) :
  ecurve.getEncoded Q false = ecurve.getEncoded R false ->
  ecurve.affineX Q = ecurve.affineX R /\ ecurve.affineY Q = ecurve.affineY R.
Proof.
  destruct (getEncoded_uncompressed Q) as (X & Y & -> & HX & HY & <- & <-).
  destruct (getEncoded_uncompressed R) as (X' & Y' & -> & HX' & HY' & <- & <-).
  intros Heq.
  injection Heq as Heq.
  apply app_same_length in Heq as [-> ->]; [auto|congruence].
Qed.

Lemma getEncoded_affine (Q R : ecurve.Point) :
  ecurve.getEncoded Q false = ecurve.getEncoded R false <->
  (ecurve.affineX Q = ecurve.affineX R /\ ecurve.affineY Q = ecurve.affineY R).
Proof.
  split; [apply getEncoded_inj|].
  intros [Hx Hy].
  unfold ecurve.getEncoded.
  rewrite Hx, Hy.
  reflexivity.
Qed.

(** ** Further properties of the decoding of points *)

Lemma constructor_points {C : Common} (utxo : UTXO.UTXOType) :
  exists o : UTXO.Instance,
    UTXO.constructor utxo = Normal o
    /\ Forall2
         (fun slot Q =>
            ecurve.pointFromX (UTXO.isOddBit (snd slot))
              (bigi.BigInteger (fst slot)) = Normal Q)
         (slots utxo) (points o).
Proof.
  destruct (constructor_spec utxo) as (o & Hc & _ & _ & _ & H0 & H1 & H2).
  exists o. split; [exact Hc|].
  unfold slots, points.
  repeat constructor; assumption.
Qed.

Lemma candidate_range (alpha : Z) :
  0 <= bigi.modPow alpha ecurve.pOverFour ecurve.p < ecurve.p.
Proof.
  rewrite modPow_spec by (exact pOverFour_nonneg || exact p_above_one).
  apply Z.mod_pos_bound. exact p_positive.
Qed.

(** A square has two roots modulo the field prime, one the opposite of the
    other. *)
Lemma square_roots (y z : Z) :
  0 <= y < ecurve.p -> 0 <= z < ecurve.p ->
  (y * y) mod ecurve.p = (z * z) mod ecurve.p ->
  y = z \/ y + z = ecurve.p.
Proof.
  intros Hy Hz Heq.
  pose proof p_positive as Hp.
  assert (Hdiv : (ecurve.p | (y - z) * (y + z))).
  { apply Z.mod_divide; [lia|].
    replace ((y - z) * (y + z)) with (y * y - z * z) by ring.
    rewrite Zminus_mod, Heq, Z.sub_diag.
    apply Z.mod_0_l. lia. }
  apply (prime_mult _ p_prime) in Hdiv as [[k Hk]|[k Hk]].
  - left.
    assert (Hkz : k = 0)
      by (destruct (Z.lt_trichotomy k 0) as [Hn|[Hk0|Hpos]];
          [nia|exact Hk0|nia]).
    subst k. lia.
  - assert (Hk01 : k = 0 \/ k = 1)
      by (destruct (Z.lt_trichotomy k 0) as [Hn|[Hk0|Hpos]];
          [nia|left; exact Hk0|right; nia]).
    destruct Hk01 as [-> | ->]; [left; lia|right; lia].
Qed.

(** [pointFromX] gives back a point of the curve from its X-coordinate and
    the parity of its Y-coordinate. *)
Lemma pointFromX_roundtrip (x y : Z) :
  0 <= y < ecurve.p ->
  (y * y) mod ecurve.p = (x ^ 3 + ecurve.a * x + ecurve.b) mod ecurve.p ->
  ecurve.pointFromX (Z.odd y) x = Normal (ecurve.fromAffine x y).
Proof.
  intros Hy Hroot.
  unfold ecurve.pointFromX.
  pose proof (square_root_candidate _ y Hroot) as Hc.
  cbv zeta in Hc.
  pose proof (candidate_range
                ((x ^ 3 + ecurve.a * x + ecurve.b) mod ecurve.p)) as Hr.
  set (beta := bigi.modPow _ _ _) in *.
  rewrite <- Hroot in Hc.
  destruct (square_roots y beta Hy Hr (eq_sym Hc)) as [Heq|Hsum].
  - subst y. unfold bigi.isEven.
    rewrite <- Z.negb_odd, xorb_nilpotent.
    reflexivity.
  - assert (Hpar : Z.odd y = negb (Z.odd beta)).
    { replace y with (ecurve.p - beta) by lia.
      rewrite Z.odd_sub, p_odd.
      destruct (Z.odd beta); reflexivity. }
    unfold bigi.isEven.
    rewrite <- Z.negb_odd, Hpar, negb_involutive.
    destruct (Z.odd beta); cbn [negb xorb];
      (replace (ecurve.p - beta) with y by lia); reflexivity.
Qed.

Lemma compactOf_decodes (slot : string * string) (P Q : ecurve.Point) :
  compactOf slot P ->
  ecurve.pointFromX (UTXO.isOddBit (snd slot)) (bigi.BigInteger (fst slot))
  = Normal Q ->
  Q = P /\ ecurve.isOnCurve P = true.
Proof.
  intros (Hx & Hbit & Hrange & Hroot) HQ.
  pose proof (pointFromX_roundtrip _ _ Hrange Hroot) as Hrt.
  rewrite <- Hx, <- Hbit, HQ in Hrt.
  assert (HQP : Q = P).
  { destruct P as [Px Py]. cbn [ecurve.x ecurve.y] in *. congruence. }
  subst Q.
  split; [reflexivity|].
  apply (pointFromX_onCurve _ _ _ HQ).
  exists (ecurve.y P). rewrite Hx. exact Hroot.
Qed.

Lemma decode_all (ss : list (string * string)) (Qs : list ecurve.Point) :
  Forall2
    (fun slot Q =>
       ecurve.pointFromX (UTXO.isOddBit (snd slot))
         (bigi.BigInteger (fst slot)) = Normal Q) ss Qs ->
  forall Ps : list ecurve.Point,
    Forall2 compactOf ss Ps ->
    Qs = Ps /\ Forall (fun P => ecurve.isOnCurve P = true) Ps.
Proof.
  induction 1 as [|slot Q ss Qs HQ _ IH]; intros Ps HPs.
  - inversion HPs. split; constructor.
  - inversion HPs as [|? P ? Ps' Hcompact Hrest]; subst.
    destruct (compactOf_decodes slot P Q Hcompact HQ) as [-> Hon].
    destruct (IH Ps' Hrest) as [-> Hons].
    split; [reflexivity|constructor; assumption].
Qed.

(** X6. The constructor inverts the compact form: from a record whose
    three (X-coordinate, parity) pairs write three points of the curve, it
    builds exactly these three points. *)
Theorem constructor_roundtrip {C : Common} (utxo : UTXO.UTXOType)
  (Ps : list ecurve.Point) :
  Forall2 compactOf (slots utxo) Ps ->
  exists o : UTXO.Instance,
    UTXO.constructor utxo = Normal o
    /\ points o = Ps
    /\ Forall (fun P => ecurve.isOnCurve P = true) Ps.
Proof.
  intros Hslots.
  destruct (constructor_points utxo) as (o & Hc & Hpts).
  exists o. split; [exact Hc|].
  exact (decode_all _ _ Hpts _ Hslots).
Qed.

Lemma pointFromX_opposite (x : Z) (Q R : ecurve.Point) :
  ecurve.pointFromX true x = Normal Q ->
  ecurve.pointFromX false x = Normal R ->
  ecurve.x Q = ecurve.x R /\ ecurve.y Q + ecurve.y R = ecurve.p.
Proof.
  unfold ecurve.pointFromX.
  set (beta := bigi.modPow _ _ _).
  intros HQ HR.
  apply (f_equal (fun c => match c with Normal q => q | Throw _ => Q end))
    in HQ, HR.
  cbv beta iota in HQ, HR.
  subst Q R.
  cbn [ecurve.x ecurve.y].
  split; [reflexivity|].
  destruct (bigi.isEven beta); cbn [negb xorb]; lia.
Qed.

(** X7. Two records with the same X-coordinates and opposite parity tests
    decode to opposite points: the same X-coordinates, and Y-coordinates that
    add up to the field prime. *)
Theorem parity_selects_opposite {C : Common} (utxo utxo' : UTXO.UTXOType) :
  Forall2
    (fun slot slot' =>
       fst slot = fst slot'
       /\ UTXO.isOddBit (snd slot) = negb (UTXO.isOddBit (snd slot')))
    (slots utxo) (slots utxo') ->
  exists o o' : UTXO.Instance,
    UTXO.constructor utxo = Normal o
    /\ UTXO.constructor utxo' = Normal o'
    /\ Forall2
         (fun Q Q' =>
            ecurve.x Q = ecurve.x Q' /\ ecurve.y Q + ecurve.y Q' = ecurve.p)
         (points o) (points o').
Proof.
  intros Hslots.
  destruct (constructor_points utxo) as (o & Hc & Hpts).
  destruct (constructor_points utxo') as (o' & Hc' & Hpts').
  exists o, o'. split; [exact Hc|]. split; [exact Hc'|].
  revert Hpts Hpts' Hslots.
  generalize (points o) (points o') (slots utxo) (slots utxo').
  intros Qs Qs' ss ss' Hpts.
  revert Qs' ss'.
  induction Hpts as [|slot Q ss Qs HQ _ IH]; intros Qs' ss' Hpts' Hslots;
    inversion Hslots as [|? slot' ? ss1 [HX Hbit] Hrest]; subst;
    inversion Hpts' as [|? Q' ? Qs1 HQ' Hpts1]; subst.
  - constructor.
  - constructor; [|exact (IH _ _ Hpts1 Hrest)].
    rewrite HX, Hbit in HQ.
    destruct (UTXO.isOddBit (snd slot')); cbn [negb] in HQ.
    + destruct (pointFromX_opposite _ _ _ HQ' HQ) as [Hx Hy].
      split; [congruence|lia].
    + exact (pointFromX_opposite _ _ _ HQ HQ').
Qed.

Lemma curve_equation_congruent (x x' : Z) :
  x mod ecurve.p = x' mod ecurve.p ->
  (x ^ 3 + ecurve.a * x + ecurve.b) mod ecurve.p
  = (x' ^ 3 + ecurve.a * x' + ecurve.b) mod ecurve.p.
Proof.
  intros Hx.
  rewrite <- (curve_equation_mod x), <- (curve_equation_mod x').
  rewrite !Z.mul_1_r, Hx.
  reflexivity.
Qed.

Lemma pointFromX_congruent (isOdd : bool) (x x' : Z) (Q Q' : ecurve.Point) :
  x mod ecurve.p = x' mod ecurve.p ->
  ecurve.pointFromX isOdd x = Normal Q ->
  ecurve.pointFromX isOdd x' = Normal Q' ->
  ecurve.getEncoded Q false = ecurve.getEncoded Q' false.
Proof.
  intros Hx.
  unfold ecurve.pointFromX.
  rewrite (curve_equation_congruent x x' Hx).
  set (beta := bigi.modPow _ _ _).
  intros HQ HQ'.
  apply (f_equal (fun c => match c with Normal q => q | Throw _ => Q end))
    in HQ, HQ'.
  cbv beta iota in HQ, HQ'.
  subst Q Q'.
  apply getEncoded_affine.
  unfold ecurve.affineX, ecurve.affineY.
  cbn [ecurve.x ecurve.y].
  rewrite !Z.mul_1_r, Hx.
  split; reflexivity.
Qed.

(** X9. Two records whose X-coordinates are congruent modulo the field
    prime, with the same parity tests, give instances whose three points have
    the same encodings, hence the same digest for every address. *)
Theorem congruent_X_same_coin {C : Common} (utxo utxo' : UTXO.UTXOType) :
  Forall2
    (fun slot slot' =>
       bigi.BigInteger (fst slot) mod ecurve.p
       = bigi.BigInteger (fst slot') mod ecurve.p
       /\ UTXO.isOddBit (snd slot) = UTXO.isOddBit (snd slot'))
    (slots utxo) (slots utxo') ->
  exists o o' : UTXO.Instance,
    UTXO.constructor utxo = Normal o
    /\ UTXO.constructor utxo' = Normal o'
    /\ map (fun Q => ecurve.getEncoded Q false) (points o)
       = map (fun Q => ecurve.getEncoded Q false) (points o')
    /\ forall a : string,
         fst (UTXO.getHashData a o) = fst (UTXO.getHashData a o').
Proof.
  intros Hslots.
  destruct (constructor_points utxo) as (o & Hc & Hpts).
  destruct (constructor_points utxo') as (o' & Hc' & Hpts').
  exists o, o'. split; [exact Hc|]. split; [exact Hc'|].
  assert (Henc : map (fun Q => ecurve.getEncoded Q false) (points o)
                 = map (fun Q => ecurve.getEncoded Q false) (points o')).
  { revert Hpts Hpts' Hslots.
    generalize (points o) (points o') (slots utxo) (slots utxo').
    intros Qs Qs' ss ss' Hpts.
    revert Qs' ss'.
    induction Hpts as [|slot Q ss Qs HQ _ IH]; intros Qs' ss' Hpts' Hslots;
      inversion Hslots as [|? slot' ? ss1 [HX Hbit] Hrest]; subst;
      inversion Hpts' as [|? Q' ? Qs1 HQ' Hpts1]; subst.
    - reflexivity.
    - cbn [map]. f_equal; [|exact (IH _ _ Hpts1 Hrest)].
      rewrite Hbit in HQ.
      exact (pointFromX_congruent _ _ _ _ _ HX HQ HQ'). }
  split; [exact Henc|].
  intros a.
  rewrite !getHashData_hashInput. cbn [fst].
  unfold hashInput.
  pose proof (f_equal (fun l => nth 0 l []) Henc) as Hcm.
  pose proof (f_equal (fun l => nth 1 l []) Henc) as Hst.
  unfold points in Hcm, Hst.
  cbn [map nth] in Hcm, Hst.
  rewrite Hcm, Hst.
  reflexivity.
Qed.

(** ** Further properties of the parity test *)

Lemma digit_facts (c : ascii) :
  isDigit c = true ->
  JS.digitValue 10 c = Some (Z.of_nat (nat_of_ascii c) - 48)
  /\ bigi.intAt c = Z.of_nat (nat_of_ascii c) - 48
  /\ 0 <= Z.of_nat (nat_of_ascii c) - 48 <= 9.
Proof.
  unfold isDigit, JS.digitValue, bigi.intAt.
  intros Hc. rewrite Hc.
  apply andb_true_iff in Hc as [Hlo Hhi].
  apply Z.leb_le in Hlo, Hhi.
  destruct (Z.ltb_spec (Z.of_nat (nat_of_ascii c) - 48) 10); [|lia].
  repeat split; lia.
Qed.

Lemma digits_decimal (s : string) :
  forall (count : nat) (acc : Z),
    isDecimal s = true ->
    JS.digits 10 s count acc
    = ((count + String.length s)%nat, decimalFrom acc s).
Proof.
  induction s as [|c s IH]; intros count acc Hdec.
  - cbn. f_equal. lia.
  - cbn [isDecimal] in Hdec.
    apply andb_true_iff in Hdec as [Hc Hdec].
    cbn [JS.digits decimalFrom String.length].
    destruct (digit_facts c Hc) as (-> & _ & _).
    rewrite IH by exact Hdec.
    f_equal. lia.
Qed.

Lemma decimalFrom_nonneg (s : string) :
  forall acc : Z, isDecimal s = true -> 0 <= acc -> 0 <= decimalFrom acc s.
Proof.
  induction s as [|c s IH]; intros acc Hdec Hacc; [exact Hacc|].
  cbn [isDecimal] in Hdec.
  apply andb_true_iff in Hdec as [Hc Hdec].
  cbn [decimalFrom].
  apply IH; [exact Hdec|].
  destruct (digit_facts c Hc) as (_ & _ & Hr). lia.
Qed.

Ltac each_ascii c H :=
  destruct c as [[] [] [] [] [] [] [] []];
  try (vm_compute in H; discriminate H).

(** On a decimal numeral [parseInt] reads every digit. *)
Lemma parseInt_decimal (s : string) :
  isDecimal s = true ->
  JS.parseInt s
  = match s with
    | EmptyString => JS.NaN
    | _ => JS.toDouble false (decimalValue s)
    end.
Proof.
  intros Hdec.
  assert (Hdigits : JS.parseInt s
                    = match JS.digits 10 s 0 0 with
                      | (O, _) => JS.NaN
                      | (_, mathInt) => JS.toDouble false mathInt
                      end).
  { destruct s as [|c s]; [reflexivity|].
    cbn [isDecimal] in Hdec.
    apply andb_true_iff in Hdec as [Hc Hs].
    each_ascii c Hc; try reflexivity.
    destruct s as [|c' s]; [reflexivity|].
    cbn [isDecimal] in Hs.
    apply andb_true_iff in Hs as [Hc' Hs].
    each_ascii c' Hc'; reflexivity. }
  rewrite Hdigits, digits_decimal by exact Hdec.
  destruct s as [|c s]; reflexivity.
Qed.

Lemma toDouble_parity (m : Z) :
  0 <= m ->
  JS.strictEq (JS.rem (JS.toDouble false m) 2) 1
  = (m <? 2 ^ 53) && Z.odd m.
Proof.
  intros Hm.
  unfold JS.toDouble.
  destruct (Z.ltb_spec m (2 ^ 53)) as [Hsmall|Hbig].
  - cbn [JS.rem JS.strictEq andb].
    change (2 =? 0) with false. cbv iota. cbn [JS.strictEq].
    rewrite Z.rem_mod_nonneg, Zmod_odd by lia.
    destruct (Z.odd m); reflexivity.
  - cbn [andb].
    set (k := Z.log2 m - 52).
    assert (Hk : 1 <= k).
    { unfold k.
      assert (53 <= Z.log2 m); [|lia].
      rewrite <- (Z.log2_pow2 53) by lia.
      apply Z.log2_le_mono. exact Hbig. }
    set (t := Z.shiftr m k + _).
    destruct (2 ^ 1024 <=? Z.shiftl t k); [reflexivity|].
    cbn [JS.rem JS.strictEq].
    change (2 =? 0) with false. cbv iota. cbn [JS.strictEq].
    rewrite Z.shiftl_mul_pow2 by lia.
    replace k with (Z.succ (k - 1)) by lia.
    rewrite Z.pow_succ_r by lia.
    replace (t * (2 * 2 ^ (k - 1))) with ((t * 2 ^ (k - 1)) * 2) by ring.
    rewrite Z.rem_mul by lia.
    reflexivity.
Qed.

(** X8. On a parity string that is a decimal numeral the parity test is
    the parity of the number, as long as the number is below 2^53; from 2^53
    on, and on the empty string, the test fails and the even root is
    taken. *)
Theorem isOddBit_decimal (yBit : string) :
  isDecimal yBit = true ->
  UTXO.isOddBit yBit
  = (decimalValue yBit <? 2 ^ 53) && Z.odd (decimalValue yBit).
Proof.
  intros Hdec.
  unfold UTXO.isOddBit.
  rewrite parseInt_decimal by exact Hdec.
  destruct yBit as [|c s]; [reflexivity|].
  apply toDouble_parity.
  apply decimalFrom_nonneg; [exact Hdec|lia].
Qed.

(** ** Further properties of [BigInteger] on the X-coordinates *)

Lemma radixStep_lenient (st : bigi.radixState) (c : ascii) :
  Ascii.eqb c "-" = false ->
  (bigi.j st < bigi.cs)%nat ->
  (bigi.j st = 0%nat -> bigi.w st = 0) ->
  let st' := bigi.radixStep 10 st c in
  let v := bigi.self st * 10 ^ Z.of_nat (bigi.j st) + bigi.w st in
  bigi.mi st' = bigi.mi st
  /\ (bigi.j st' < bigi.cs)%nat
  /\ (bigi.j st' = 0%nat -> bigi.w st' = 0)
  /\ bigi.self st' * 10 ^ Z.of_nat (bigi.j st') + bigi.w st'
     = if bigi.intAt c <? 0 then v else 10 * v + bigi.intAt c.
Proof.
  intros Hminus Hj Hw.
  unfold bigi.radixStep.
  rewrite Hminus. cbn [andb].
  destruct (Z.ltb_spec (bigi.intAt c) 0) as [Hskip|Hdigit].
  - cbv zeta. auto.
  - unfold bigi.cs in *.
    destruct (Nat.leb_spec 7 (S (bigi.j st))) as [Hfull|Hpart];
      cbn [bigi.mi bigi.j bigi.w bigi.self]; cbv zeta.
    + assert (Hj6 : bigi.j st = 6%nat) by lia.
      rewrite Hj6.
      split; [reflexivity|]. split; [lia|]. split; [reflexivity|].
      change (Z.of_nat 0) with 0. change (Z.of_nat 6) with 6.
      change (Z.of_nat 7) with 7.
      lia.
    + split; [reflexivity|]. split; [lia|]. split; [lia|].
      rewrite Nat2Z.inj_succ, Z.pow_succ_r by lia.
      lia.
Qed.

Lemma radixLoop_lenient (s : string) :
  forall st : bigi.radixState,
    hasMinus s = false ->
    (bigi.j st < bigi.cs)%nat ->
    (bigi.j st = 0%nat -> bigi.w st = 0) ->
    let st' := bigi.radixLoop 10 s st in
    bigi.mi st' = bigi.mi st
    /\ (bigi.j st' = 0%nat -> bigi.w st' = 0)
    /\ bigi.self st' * 10 ^ Z.of_nat (bigi.j st') + bigi.w st'
       = lenientFrom
           (bigi.self st * 10 ^ Z.of_nat (bigi.j st) + bigi.w st) s.
Proof.
  induction s as [|c s IH]; intros st Hminus Hj Hw.
  - cbn. auto.
  - cbn [hasMinus] in Hminus.
    apply orb_false_iff in Hminus as [Hc Hminus].
    cbn [bigi.radixLoop lenientFrom].
    destruct (radixStep_lenient st c Hc Hj Hw) as (Hmi1 & Hj1 & Hw1 & Hval).
    cbv zeta in Hval.
    rewrite <- Hval, <- Hmi1.
    apply IH; assumption.
Qed.

Lemma fromRadix_state (s : string) (st0 : bigi.radixState) :
  hasMinus s = false ->
  (bigi.j st0 < bigi.cs)%nat ->
  (bigi.j st0 = 0%nat -> bigi.w st0 = 0) ->
  let st := bigi.radixLoop 10 s st0 in
  (if bigi.mi st
   then 0 - (if (0 <? bigi.j st)%nat
             then bigi.self st * 10 ^ Z.of_nat (bigi.j st) + bigi.w st
             else bigi.self st)
   else (if (0 <? bigi.j st)%nat
         then bigi.self st * 10 ^ Z.of_nat (bigi.j st) + bigi.w st
         else bigi.self st))
  = let v := lenientFrom
               (bigi.self st0 * 10 ^ Z.of_nat (bigi.j st0) + bigi.w st0) s in
    if bigi.mi st0 then 0 - v else v.
Proof.
  intros Hminus Hj Hw.
  destruct (radixLoop_lenient s st0 Hminus Hj Hw) as (Hmi & Hw' & Hval).
  cbv zeta in *.
  rewrite Hmi, <- Hval.
  assert (Hv : (if (0 <? bigi.j (bigi.radixLoop 10 s st0))%nat
                then bigi.self (bigi.radixLoop 10 s st0)
                     * 10 ^ Z.of_nat (bigi.j (bigi.radixLoop 10 s st0))
                     + bigi.w (bigi.radixLoop 10 s st0)
                else bigi.self (bigi.radixLoop 10 s st0))
               = bigi.self (bigi.radixLoop 10 s st0)
                 * 10 ^ Z.of_nat (bigi.j (bigi.radixLoop 10 s st0))
                 + bigi.w (bigi.radixLoop 10 s st0)).
  { destruct (Nat.ltb_spec 0 (bigi.j (bigi.radixLoop 10 s st0)))
      as [Hpos|Hzero]; [reflexivity|].
    assert (Hj0 : bigi.j (bigi.radixLoop 10 s st0) = 0%nat) by lia.
    rewrite Hj0, (Hw' Hj0).
    change (Z.of_nat 0) with 0. lia. }
  rewrite Hv.
  reflexivity.
Qed.

(** [BigInteger] reads any string without a minus sign leniently, and a
    leading minus sign negates. *)
Theorem BigInteger_lenient (s : string) :
  hasMinus s = false ->
  bigi.BigInteger s = lenientFrom 0 s
  /\ bigi.BigInteger (String "-" s) = - lenientFrom 0 s.
Proof.
  intros Hminus.
  unfold bigi.BigInteger, bigi.fromRadix.
  split.
  - rewrite (fromRadix_state s (bigi.mkRadix 0 0 0 false) Hminus);
      [reflexivity|cbv; lia|reflexivity].
  - cbn [bigi.radixLoop].
    change (bigi.radixStep 10 (bigi.mkRadix 0 0 0 false) "-")
      with (bigi.mkRadix 0 0 0 true).
    rewrite (fromRadix_state s (bigi.mkRadix 0 0 0 true) Hminus);
      [|cbv; lia|reflexivity].
    cbn [bigi.mi bigi.self bigi.j bigi.w].
    change (0 * 10 ^ Z.of_nat 0 + 0) with 0.
    lia.
Qed.

(** ** Further properties of [fromProof] *)

Lemma slice_suffix (front : list byte) (c : byte) :
  exists rest : list byte,
    JS.slice (front ++ [c]) (-33) None = rest ++ [c].
Proof.
  unfold JS.slice, JS.relIndex.
  rewrite length_app. cbn [List.length].
  change (-33 <? 0) with true. cbv iota.
  set (s := Z.to_nat (Z.max (Z.of_nat (List.length front + 1) + -33) 0)).
  assert (Hs : (s <= List.length front)%nat) by (unfold s; lia).
  exists (skipn s front).
  rewrite firstn_all2 by (rewrite length_skipn, length_app; cbn; lia).
  rewrite skipn_app.
  replace (s - List.length front)%nat with 0%nat by lia.
  reflexivity.
Qed.

Lemma yBitOf_snoc (front : list byte) (c : byte) :
  UTXO.yBitOf (front ++ [c])
  = if Z.even (Z.of_N (Byte.to_N c)) then "0" else "1".
Proof.
  unfold UTXO.yBitOf, bigi.isEven.
  destruct (slice_suffix front c) as (rest & ->).
  rewrite fromBuffer_bigEndian, bigEndian_even_last.
  reflexivity.
Qed.

(** X14. Whatever the length of a point buffer, the parity string that
    [fromProof] computes for it is the parity of its last byte; for the empty
    buffer it is "0". *)
Theorem yBitOf_last_byte (front : list byte) (c : byte) :
  UTXO.yBitOf [] = "0"
  /\ UTXO.yBitOf (front ++ [c])
     = if Z.even (Z.of_N (Byte.to_N c)) then "0" else "1".
Proof.
  split; [reflexivity|apply yBitOf_snoc].
Qed.

Lemma pointFromX_inv (isOdd : bool) (x : Z) (Q : ecurve.Point) :
  ecurve.pointFromX isOdd x = Normal Q ->
  ecurve.x Q = x /\ Z.odd (ecurve.y Q) = isOdd.
Proof.
  intros HQ.
  destruct (pointFromX_spec isOdd x) as (Q' & HQ' & Hx & Hy).
  assert (HQQ : Q' = Q) by congruence.
  subst Q'. auto.
Qed.

Lemma isOddBit_yBitOf (point : list byte) :
  List.length point = 65%nat ->
  UTXO.isOddBit (UTXO.yBitOf point) = Z.odd (bigi.bigEndian (skipn 33 point)).
Proof.
  intros Hlen.
  rewrite (yBitOf_Y_bytes point Hlen), <- Z.negb_even.
  destruct (Z.even (bigi.bigEndian (skipn 33 point))); reflexivity.
Qed.

(** X11. Whenever [fromProof] completes on a proof whose three buffers
    have 65 bytes, the instance keeps the index of the proof, holds what
    [numberToHex] returns for the two ciphertexts, and each of its points has
    a Y-coordinate of the parity of the Y-coordinate written in the proof,
    the big-endian value of the last 32 bytes of the buffer. *)
Theorem fromProof_parity {C : Common} (proof : UTXO.Proof)
  (o : UTXO.Instance) :
  UTXO.fromProof proof = Normal o ->
  List.length (UTXO.commitment proof) = 65%nat ->
  List.length (UTXO.onetimeAddress proof) = 65%nat ->
  List.length (UTXO.txPublicKey proof) = 65%nat ->
  UTXO.index (UTXO.this o) = UTXO.proofIndex proof
  /\ UTXO.amount (UTXO.this o) = numberToHex (UTXO.encryptedAmount proof)
  /\ UTXO.mask (UTXO.this o) = numberToHex (UTXO.encryptedMask proof)
  /\ Z.odd (ecurve.y (UTXO.lfCommitment (UTXO.this o)))
     = Z.odd (bigi.bigEndian (skipn 33 (UTXO.commitment proof)))
  /\ Z.odd (ecurve.y (UTXO.lfStealth (UTXO.this o)))
     = Z.odd (bigi.bigEndian (skipn 33 (UTXO.onetimeAddress proof)))
  /\ Z.odd (ecurve.y (UTXO.lfTxPublicKey (UTXO.this o)))
     = Z.odd (bigi.bigEndian (skipn 33 (UTXO.txPublicKey proof))).
Proof.
  intros Hrun Hc Hs Ht.
  unfold UTXO.fromProof in Hrun.
  destruct (constructor_spec
              (UTXO.mkUTXOType
                 (UTXO.mkTriple
                    (JS.join (JS.slice (UTXO.commitment proof) 1 (Some 33)))
                    (JS.join (JS.slice (UTXO.onetimeAddress proof) 1 (Some 33)))
                    (JS.join (JS.slice (UTXO.txPublicKey proof) 1 (Some 33))))
                 (UTXO.mkTriple
                    (UTXO.yBitOf (UTXO.commitment proof))
                    (UTXO.yBitOf (UTXO.onetimeAddress proof))
                    (UTXO.yBitOf (UTXO.txPublicKey proof)))
                 (UTXO.mkPair (UTXO.encryptedAmount proof)
                    (UTXO.encryptedMask proof))
                 (UTXO.proofIndex proof)))
    as (o' & Ho & Hi & Ha & Hm & H0 & H1 & H2).
  assert (Hoo : o' = o) by congruence.
  subst o'.
  cbn [UTXO.k0 UTXO.k1 UTXO.k2 UTXO.k3 UTXO.t0 UTXO.t1 UTXO.t2
       UTXO.p0 UTXO.p1] in *.
  split; [exact Hi|]. split; [exact Ha|]. split; [exact Hm|].
  rewrite <- (isOddBit_yBitOf _ Hc), <- (isOddBit_yBitOf _ Hs),
    <- (isOddBit_yBitOf _ Ht).
  apply pointFromX_inv in H0 as [_ H0], H1 as [_ H1], H2 as [_ H2].
  auto.
Qed.

Lemma toString_decimal (b : byte) :
  isDecimal (JS.toString b) = true
  /\ (1 <= String.length (JS.toString b) <= 3)%nat.
Proof. destruct b; split; vm_compute; try reflexivity; lia. Qed.

Lemma isDecimal_append (s t : string) :
  isDecimal (s ++ t) = isDecimal s && isDecimal t.
Proof.
  induction s as [|c s IH]; [reflexivity|].
  cbn [append isDecimal]. rewrite IH. apply andb_assoc.
Qed.

Lemma length_string_append (s t : string) :
  String.length (s ++ t) = (String.length s + String.length t)%nat.
Proof.
  induction s as [|c s IH]; [reflexivity|].
  cbn [append String.length]. rewrite IH. reflexivity.
Qed.

Lemma join_decimal (buf : list byte) :
  isDecimal (JS.join buf) = true
  /\ (List.length buf <= String.length (JS.join buf)
      <= 3 * List.length buf)%nat.
Proof.
  induction buf as [|b buf [IHd IHl]]; [split; [reflexivity|cbn; lia]|].
  cbn [JS.join List.length].
  destruct (toString_decimal b) as [Hd Hl].
  rewrite isDecimal_append, Hd, IHd.
  split; [reflexivity|].
  rewrite length_string_append. lia.
Qed.

(** X12. Whenever [fromProof] completes, the X-coordinate of each point of
    the instance is the number whose decimal digits are the decimal
    renderings of bytes 1 to 32 of the buffer, one to three digits a byte. *)
Theorem fromProof_X_digits {C : Common} (proof : UTXO.Proof)
  (o : UTXO.Instance) :
  UTXO.fromProof proof = Normal o ->
  Forall2
    (fun Q buf =>
       let bytes := JS.slice buf 1 (Some 33) in
       let X := JS.join bytes in
       ecurve.x Q = decimalValue X
       /\ (List.length bytes <= String.length X
           <= 3 * List.length bytes)%nat)
    (points o)
    [UTXO.commitment proof; UTXO.onetimeAddress proof;
     UTXO.txPublicKey proof].
Proof.
  intros Hrun.
  unfold UTXO.fromProof in Hrun.
  destruct (constructor_points
              (UTXO.mkUTXOType
                 (UTXO.mkTriple
                    (JS.join (JS.slice (UTXO.commitment proof) 1 (Some 33)))
                    (JS.join (JS.slice (UTXO.onetimeAddress proof) 1 (Some 33)))
                    (JS.join (JS.slice (UTXO.txPublicKey proof) 1 (Some 33))))
                 (UTXO.mkTriple
                    (UTXO.yBitOf (UTXO.commitment proof))
                    (UTXO.yBitOf (UTXO.onetimeAddress proof))
                    (UTXO.yBitOf (UTXO.txPublicKey proof)))
                 (UTXO.mkPair (UTXO.encryptedAmount proof)
                    (UTXO.encryptedMask proof))
                 (UTXO.proofIndex proof)))
    as (o' & Ho & Hpts).
  assert (Hoo : o' = o) by congruence.
  subst o'.
  unfold slots, points in *.
  cbn [UTXO.k0 UTXO.k1 UTXO.t0 UTXO.t1 UTXO.t2] in Hpts.
  inversion Hpts as [|? ? ? ? H0 Hpts1]; subst.
  inversion Hpts1 as [|? ? ? ? H1 Hpts2]; subst.
  inversion Hpts2 as [|? ? ? ? H2 _]; subst.
  cbn [fst snd] in H0, H1, H2.
  apply pointFromX_inv in H0 as [H0 _], H1 as [H1 _], H2 as [H2 _].
  rewrite (BigInteger_decimal _ (proj1 (join_decimal _))) in H0.
  rewrite (BigInteger_decimal _ (proj1 (join_decimal _))) in H1.
  rewrite (BigInteger_decimal _ (proj1 (join_decimal _))) in H2.
  repeat constructor; try assumption; apply join_decimal.
Qed.

(** ** Further properties of the encodings *)

Lemma slice_encoded (X Y : list byte) :
  List.length X = 32%nat -> List.length Y = 32%nat ->
  JS.slice (x04 :: X ++ Y) 1 (Some 33) = X
  /\ JS.slice (x04 :: X ++ Y) 33 None = Y.
Proof.
  intros HX HY.
  assert (Hlen : List.length (x04 :: X ++ Y) = 65%nat)
    by (cbn [List.length]; rewrite length_app; lia).
  unfold JS.slice, JS.relIndex.
  rewrite Hlen.
  change (Z.to_nat (if 1 <? 0 then Z.max (Z.of_nat 65 + 1) 0
                    else Z.min 1 (Z.of_nat 65))) with 1%nat.
  change (Z.to_nat (if 33 <? 0 then Z.max (Z.of_nat 65 + 33) 0
                    else Z.min 33 (Z.of_nat 65))) with 33%nat.
  change (33 - 1)%nat with 32%nat.
  change (65 - 33)%nat with 32%nat.
  split.
  - change (skipn 1 (x04 :: X ++ Y)) with (X ++ Y).
    rewrite firstn_app, HX, Nat.sub_diag, firstn_O, app_nil_r.
    apply firstn_all2. lia.
  - change (skipn 33 (x04 :: X ++ Y)) with (skipn 32 (X ++ Y)).
    rewrite skipn_app, HX, Nat.sub_diag, skipn_O.
    rewrite skipn_all2 by lia.
    apply firstn_all2. cbn [app]. lia.
Qed.

(** X15. The uncompressed encoding of a point, as [checkOwnership] and
    [getHashData] pass it on, decodes to the point with its coordinates
    reduced modulo the field prime: a point equal to it on the curve, and the
    point itself when its coordinates are reduced. *)
Theorem encoding_decodes (Q : ecurve.Point) :
  let R := ecurve.fromAffine (ecurve.affineX Q) (ecurve.affineY Q) in
  ecurve.decodeFrom (ecurve.getEncoded Q false) = Normal R
  /\ ecurve.equals Q R = true
  /\ (0 <= ecurve.x Q < ecurve.p -> 0 <= ecurve.y Q < ecurve.p -> R = Q).
Proof.
  intros R.
  pose proof p_positive as Hp.
  split; [|split].
  - destruct (getEncoded_uncompressed Q) as (X & Y & -> & HX & HY & HvX & HvY).
    unfold ecurve.decodeFrom.
    assert (Hlen : List.length (x04 :: X ++ Y) = 65%nat)
      by (cbn [List.length]; rewrite length_app; lia).
    rewrite Hlen.
    change (65 =? 1 + ecurve.pLength + ecurve.pLength)%nat with true.
    cbv iota.
    change (1 + Z.of_nat ecurve.pLength) with 33.
    destruct (slice_encoded X Y HX HY) as [-> ->].
    rewrite !fromBuffer_bigEndian, HvX, HvY.
    reflexivity.
  - unfold ecurve.equals, R, ecurve.affineX, ecurve.affineY.
    cbn [ecurve.x ecurve.y].
    rewrite !Z.mul_1_r.
    rewrite !Zminus_mod_idemp_l, !Z.sub_diag, Z.mod_0_l by lia.
    reflexivity.
  - intros Hx Hy.
    unfold R, ecurve.affineX, ecurve.affineY.
    rewrite !Z.mul_1_r, !Z.mod_small by assumption.
    destruct Q; reflexivity.
Qed.

(** X13. The constructor reads each X-coordinate string without a minus
    sign leniently in radix 10: a character that is neither digit nor letter
    is skipped, and a letter counts for 10 to 35, so that a hexadecimal
    numeral is not read in radix 16. *)
Theorem constructor_reads_leniently {C : Common} (utxo : UTXO.UTXOType) :
  Forall (fun slot => hasMinus (fst slot) = false) (slots utxo) ->
  exists o : UTXO.Instance,
    UTXO.constructor utxo = Normal o
    /\ Forall2 (fun slot Q => ecurve.x Q = lenientFrom 0 (fst slot))
         (slots utxo) (points o).
Proof.
  intros Hminus.
  destruct (constructor_points utxo) as (o & Hc & Hpts).
  exists o. split; [exact Hc|].
  revert Hminus.
  induction Hpts as [|slot Q ss Qs HQ _ IH]; intros Hminus; [constructor|].
  inversion Hminus as [|? ? Hslot Hrest]; subst.
  constructor; [|exact (IH Hrest)].
  apply pointFromX_inv in HQ as [-> _].
  apply BigInteger_lenient. exact Hslot.
Qed.

(** ** The further properties on the sample data *)

Lemma getRingCTKeys_success_witness :
  exists o' : UTXO.Instance,
    @UTXO.getRingCTKeys (Sample.engine "alice") "alice" Sample.instance1
    = (Normal (UTXO.mkRingCTKeys "alice" tt), o')
    /\ @UTXO.checkOwnership (Sample.engine "alice") "alice" Sample.instance1
       = (Normal (Some (Stealth.mkDecoded "ff" "10" "alice" tt)), o')
    /\ UTXO.privKey (UTXO.this o') = Some "alice".
Proof.
  exact (@getRingCTKeys_success (Sample.engine "alice") Sample.instance1
           "alice" (Stealth.mkDecoded "ff" "10" "alice" tt) eq_refl).
Defined.

Lemma constructor_roundtrip_witness :
  let Q := UTXO.lfCommitment (UTXO.this Sample.instance1) in
  exists o : UTXO.Instance,
    @UTXO.constructor Sample.common (Sample.coin1 "0") = Normal o
    /\ points o = [Q; Q; Q]
    /\ Forall (fun P => ecurve.isOnCurve P = true) [Q; Q; Q].
Proof.
  intros Q.
  assert (HQ : compactOf ("1", "0") Q).
  { split; [reflexivity|].
    split; [vm_compute; reflexivity|].
    split; [split; [vm_compute; discriminate|vm_compute; reflexivity]|].
    vm_compute. reflexivity. }
  apply (@constructor_roundtrip Sample.common (Sample.coin1 "0") [Q; Q; Q]).
  repeat (apply Forall2_cons; [exact HQ|]).
  apply Forall2_nil.
Defined.

Lemma parity_selects_opposite_witness :
  exists o o' : UTXO.Instance,
    @UTXO.constructor Sample.common (Sample.coin1 "1") = Normal o
    /\ @UTXO.constructor Sample.common (Sample.coin1 "0") = Normal o'
    /\ Forall2
         (fun Q Q' =>
            ecurve.x Q = ecurve.x Q' /\ ecurve.y Q + ecurve.y Q' = ecurve.p)
         (points o) (points o').
Proof.
  apply (@parity_selects_opposite Sample.common
           (Sample.coin1 "1") (Sample.coin1 "0")).
  repeat (apply Forall2_cons; [split; reflexivity|]).
  apply Forall2_nil.
Defined.

Lemma isOddBit_decimal_witness :
  UTXO.isOddBit "3" = (decimalValue "3" <? 2 ^ 53) && Z.odd (decimalValue "3").
Proof. exact (isOddBit_decimal "3" eq_refl). Defined.

Lemma congruent_X_same_coin_witness :
  exists o o' : UTXO.Instance,
    @UTXO.constructor Sample.common (Sample.coin1 "0") = Normal o
    /\ @UTXO.constructor Sample.common coin1Shifted = Normal o'
    /\ map (fun Q => ecurve.getEncoded Q false) (points o)
       = map (fun Q => ecurve.getEncoded Q false) (points o')
    /\ forall a : string,
         fst (@UTXO.getHashData Sample.common a o)
         = fst (@UTXO.getHashData Sample.common a o').
Proof.
  apply (@congruent_X_same_coin Sample.common (Sample.coin1 "0") coin1Shifted).
  repeat (apply Forall2_cons; [split; vm_compute; reflexivity|]).
  apply Forall2_nil.
Defined.

Lemma fromProof_sample :
  exists o : UTXO.Instance,
    @UTXO.fromProof Sample.common Sample.proofG = Normal o.
Proof. vm_compute. eexists. reflexivity. Qed.

Lemma fromProof_parity_witness :
  exists o : UTXO.Instance,
    @UTXO.fromProof Sample.common Sample.proofG = Normal o
    /\ UTXO.index (UTXO.this o) = 7
    /\ UTXO.amount (UTXO.this o) = "ff"
    /\ UTXO.mask (UTXO.this o) = "10"
    /\ Z.odd (ecurve.y (UTXO.lfCommitment (UTXO.this o))) = Z.odd ecurve.Gy
    /\ Z.odd (ecurve.y (UTXO.lfStealth (UTXO.this o))) = Z.odd ecurve.Gy
    /\ Z.odd (ecurve.y (UTXO.lfTxPublicKey (UTXO.this o))) = Z.odd ecurve.Gy.
Proof.
  destruct fromProof_sample as (o & Ho).
  exists o.
  split; [exact Ho|].
  exact (@fromProof_parity Sample.common Sample.proofG o Ho
           eq_refl eq_refl eq_refl).
Defined.

Lemma fromProof_X_digits_witness :
  exists o : UTXO.Instance,
    @UTXO.fromProof Sample.common Sample.proofG = Normal o
    /\ Forall2
         (fun Q buf =>
            let bytes := JS.slice buf 1 (Some 33) in
            let X := JS.join bytes in
            ecurve.x Q = decimalValue X
            /\ (List.length bytes <= String.length X
                <= 3 * List.length bytes)%nat)
         (points o)
         [Sample.encodedG; Sample.encodedG; Sample.encodedG].
Proof.
  destruct fromProof_sample as (o & Ho).
  exists o.
  split; [exact Ho|].
  exact (@fromProof_X_digits Sample.common Sample.proofG o Ho).
Defined.

Lemma constructor_reads_leniently_witness :
  exists o : UTXO.Instance,
    @UTXO.constructor Sample.common coinHex = Normal o
    /\ Forall2 (fun slot Q => ecurve.x Q = lenientFrom 0 (fst slot))
         (slots coinHex) (points o).
Proof.
  apply (@constructor_reads_leniently Sample.common coinHex).
  repeat (apply Forall_cons; [reflexivity|]).
  apply Forall_nil.
Defined.

Example coinHex_X : lenientFrom 0 "0xff" = 3465.
Proof. reflexivity. Qed.
